(** * Aviary turboprop model: wiring of shaft-power model, gearbox and propeller

    A shallow embedding of [aviary/subsystems/propulsion/turboprop_model.py]:
    the [TurbopropModel] builder facade ([__init__], [build_pre_mission],
    [build_mission], [build_post_mission]) and the [TurbopropMission] group
    ([setup], [configure]), together with the part of OpenMDAO's promotion
    mechanism those methods rely on. *)

From Stdlib Require Import String Ascii ZArith List Lia.
From stdpp Require Import base option list gmap sets strings.

Set Warnings "-register-all".
Set Warnings "-clear-no-such-hyp".
Set Default Proof Using "Type".

(** ** Python results *)

Module Py.

Inductive exn : Type :=
| TypeError (msg : string)
| AttributeError (msg : string)
| KeyError (key : string).

Inductive result (A : Type) : Type :=
| Ok (a : A)
| Raise (e : exn).
Arguments Ok {A} a.
Arguments Raise {A} e.

Definition bind {A B} (m : result A) (k : A → result B) : result B :=
  match m with
  | Ok a => k a
  | Raise e => Raise e
  end.

(** [o.attr] on an object that may be [None]. *)
Definition getattr {A} (o : option A) (attr : string) : result A :=
  match o with
  | Some a => Ok a
  | None =>
      Raise (AttributeError
               ("'NoneType' object has no attribute '" +:+ attr +:+ "'"))
  end.

(** Calling a [list] object, as in [lst(x)]: lists are not callable. *)
Definition call_list {A B R} (lst : list A) (arg : B) : result R :=
  Raise (TypeError "'list' object is not callable").

Definition is_ok {A} (m : result A) : bool :=
  match m with Ok _ => true | Raise _ => false end.

End Py.

Global Instance result_ret : MRet Py.result := @Py.Ok.
Global Instance result_bind : MBind Py.result := λ A B k m, Py.bind m k.

(** ** OpenMDAO promotion lists *)

(** An entry of a [promotes] list: a string (here a variable name or the
    wildcard ['*'], the only pattern the module uses) or a rename tuple
    [(old, new)]. *)
Inductive promote : Type :=
| PName (s : string)
| PAlias (old new : string).

Global Instance promote_eq_dec : EqDecision promote.
Proof. solve_decision. Defined.

(** The rename registered for [v]; a later tuple for the same source name
    replaces an earlier one. *)
Definition last_alias (proms : list promote) (v : string) : option string :=
  foldl (λ acc p,
           match p with
           | PAlias old new => if decide (old = v) then Some new else acc
           | PName _ => acc
           end) None proms.

(** Name under which the variable [v] of a subsystem is seen in the parent
    group: exact names first, then rename tuples, then the wildcard; [None]
    when no entry applies and the variable is not promoted. *)
Definition promoted_name (proms : list promote) (v : string) : option string :=
  if bool_decide (v ≠ "*" ∧ PName v ∈ proms) then Some v
  else match last_alias proms v with
       | Some new => Some new
       | None => if bool_decide (PName "*" ∈ proms) then Some v else None
       end.

(** A subsystem slot of a group: the name it is attached under, the system,
    and the three promotion lists ([promotes], [promotes_inputs],
    [promotes_outputs]). *)
Record Sub (S : Type) : Type := mkSub {
  sub_name : string;
  sub_sys : S;
  promotes_any : list promote;
  promotes_inputs : list promote;
  promotes_outputs : list promote;
}.
Arguments mkSub {S}.
Arguments sub_name {S}.
Arguments sub_sys {S}.
Arguments promotes_any {S}.
Arguments promotes_inputs {S}.
Arguments promotes_outputs {S}.

Definition input_name {S} (s : Sub S) (v : string) : option string :=
  promoted_name (promotes_any s ++ promotes_inputs s) v.

Definition output_name {S} (s : Sub S) (v : string) : option string :=
  promoted_name (promotes_any s ++ promotes_outputs s) v.

(** The [prom_name] of a variable relative to the parent group. *)
Definition prom_name (owner : string) (promoted : option string) (v : string)
  : string :=
  default (owner +:+ "." +:+ v) promoted.

Fixpoint has_dot (s : string) : bool :=
  match s with
  | EmptyString => false
  | String c s' => if Ascii.eqb c "."%char then true else has_dot s'
  end.

(** [set(d[key]['prom_name'] for key in d if '.' not in d[key]['prom_name'])] *)
Definition prom_name_set (prom_names : list string) : gset string :=
  list_to_set (filter (λ n, has_dot n = false) prom_names).

(** Right-hand sides of the [ExecComp] expressions used by the module. *)
Inductive expr : Type :=
| Var (x : string)
| Add (a b : expr).

Fixpoint expr_vars (e : expr) : list string :=
  match e with
  | Var x => [x]
  | Add a b => expr_vars a ++ expr_vars b
  end.

(** Element type of the arrays carried by the ports. *)
Class Numeric (val : Type) : Type := {
  fzero : val;
  fone : val;
  fadd : val → val → val;
  fmul : val → val → val;
}.

(** Modelled from the spec: the [Verbosity] enumeration of
    [aviary.variable_info.enums], of which the module only compares a level
    with [BRIEF]. *)
Inductive Verbosity : Type := QUIET | BRIEF | VERBOSE | DEBUG.

Definition verbosity_level (v : Verbosity) : Z :=
  match v with QUIET => 0 | BRIEF => 1 | VERBOSE => 2 | DEBUG => 3 end%Z.

(** Names of the variables the module refers to through
    [aviary.variable_info.variables]; their values are declared outside this
    module. *)
Record VariableInfo : Type := {
  Dynamic_Mission_THRUST : string;
  Dynamic_Mission_THRUST_MAX : string;
  Dynamic_Mission_RPM : string;
  Dynamic_Mission_SHAFT_POWER : string;
  Dynamic_Mission_SHAFT_POWER_MAX : string;
  Dynamic_Mission_MACH : string;
  Dynamic_Mission_DENSITY : string;
  Dynamic_Mission_VELOCITY : string;
  Dynamic_Mission_SPEED_OF_SOUND : string;
  Aircraft_Engine_PROPELLER_TIP_SPEED_MAX : string;
  Aircraft_Engine_PROPELLER_TIP_MACH_MAX : string;
  Aircraft_Engine_PROPELLER_DIAMETER : string;
  Aircraft_Engine_PROPELLER_ACTIVITY_FACTOR : string;
  Aircraft_Engine_PROPELLER_INTEGRATED_LIFT_COEFFICIENT : string;
  Aircraft_Nacelle_AVG_DIAMETER : string;
}.

Section Systems.

Context {val : Type}.

(** An OpenMDAO system, as far as the module looks at it: a stage
    computation with its manifest of promoted input and output names, an
    [IndepVarComp] with the outputs added so far, an [ExecComp], or a group
    of attached subsystems. *)
Inductive System : Type :=
| Stage (sname : string) (inputs outputs : list string)
| IndepVarComp (outs : list (string * (list val * string)))
| ExecComp (target : string) (body : expr)
           (meta : list (string * (list val * string)))
| GroupSys (subs : list (Sub System)).

Local Abbreviation Group := (list (Sub System)).

Definition system_name (s : System) : string :=
  match s with
  | Stage n _ _ => n
  | _ => ""
  end.

(** [list_inputs] / [list_outputs]: the [prom_name] of every variable. *)
Fixpoint list_inputs (s : System) : list string :=
  match s with
  | Stage _ ins _ => ins
  | IndepVarComp _ => []
  | ExecComp _ body _ => expr_vars body
  | GroupSys subs =>
      flat_map (λ sub,
                  map (λ v, prom_name (sub_name sub) (input_name sub v) v)
                      (list_inputs (sub_sys sub))) subs
  end.

Fixpoint list_outputs (s : System) : list string :=
  match s with
  | Stage _ _ outs => outs
  | IndepVarComp outs => outs.*1
  | ExecComp target _ _ => [target]
  | GroupSys subs =>
      flat_map (λ sub,
                  map (λ v, prom_name (sub_name sub) (output_name sub v) v)
                      (list_outputs (sub_sys sub))) subs
  end.

(** [Group.add_subsystem(name, subsys, promotes=..., promotes_inputs=...,
    promotes_outputs=...)]. Uniqueness of [name] within the group is the
    caller's obligation and is not checked here. *)
Definition add_subsystem (g : Group) (name : string) (subsys : System)
    (promotes promotes_inputs promotes_outputs : list promote) : Group :=
  g ++ [mkSub name subsys promotes promotes_inputs promotes_outputs].

(** Keyword arguments accepted by [add_subsystem] besides [subsys]. *)
Definition add_subsystem_keywords : list string :=
  ["promotes"; "promotes_inputs"; "promotes_outputs";
   "min_procs"; "max_procs"; "proc_weight"; "proc_group"].

(** [add_subsystem] called with explicit keywords: a keyword outside the
    signature is a [TypeError], as for any Python function without
    [**kwargs]. *)
Definition add_subsystem_kw (g : Group) (name : string) (subsys : System)
    (promotes promotes_inputs promotes_outputs : list promote)
    (other_keywords : list string) : Py.result Group :=
  match find (λ k, bool_decide (k ∉ add_subsystem_keywords)) other_keywords with
  | Some k =>
      Py.Raise (Py.TypeError
        ("add_subsystem() got an unexpected keyword argument '" +:+ k +:+ "'"))
  | None =>
      Py.Ok (add_subsystem g name subsys promotes promotes_inputs
               promotes_outputs)
  end.

(** [Group._get_subsystem(name)]: the attached subsystem or [None]. *)
Definition _get_subsystem (g : Group) (name : string) : option (Sub System) :=
  find (λ s, bool_decide (sub_name s = name)) g.

(** [Group.promotes(subsys_name, any, inputs=..., outputs=...)] extends the
    promotion lists of the named subsystem. *)
Definition promotes (g : Group) (subsys_name : string)
    (any inputs outputs : list promote) : Group :=
  (λ s, if decide (sub_name s = subsys_name)
        then mkSub (sub_name s) (sub_sys s) (promotes_any s ++ any)
               (promotes_inputs s ++ inputs) (promotes_outputs s ++ outputs)
        else s) <$> g.

(** [ivc.add_output(name, val, units=...)] on the named [IndepVarComp]. *)
Definition add_output (g : Group) (ivc_name : string)
    (name : string) (v : list val) (units : string) : Group :=
  (λ s, if decide (sub_name s = ivc_name)
        then match sub_sys s with
             | IndepVarComp outs =>
                 mkSub (sub_name s) (IndepVarComp (outs ++ [(name, (v, units))]))
                   (promotes_any s) (promotes_inputs s) (promotes_outputs s)
             | _ => s
             end
        else s) <$> g.

Context `{Numeric val}.

Definition np_zeros (n : nat) : list val := replicate n fzero.
Definition np_ones (n : nat) : list val := replicate n fone.

(** Value of an [ExecComp] operand: the connected array, or the [val]
    declared for it when nothing is connected. *)
Definition operand (meta : list (string * (list val * string)))
    (connected : gmap string (list val)) (x : string) : option (list val) :=
  match connected !! x with
  | Some a => Some a
  | None => (λ e, e.2.1) <$> find (λ e, bool_decide (e.1 = x)) meta
  end.

Fixpoint eval_expr (meta : list (string * (list val * string)))
    (connected : gmap string (list val)) (e : expr) : option (list val) :=
  match e with
  | Var x => operand meta connected x
  | Add a b =>
      match eval_expr meta connected a, eval_expr meta connected b with
      | Some xs, Some ys => Some (zip_with fadd xs ys)
      | _, _ => None
      end
  end.

(** Output computed by an [ExecComp], as the pair of its name and value. *)
Definition compute (s : System) (connected : gmap string (list val))
  : option (string * list val) :=
  match s with
  | ExecComp target body meta => pair target <$> eval_expr meta connected body
  | _ => None
  end.

End Systems.

Arguments System val : clear implicits.
Abbreviation Group val := (list (Sub (System val))).

(** ** The turboprop module *)

Section Aviary.

Context {val : Type} `{Numeric val}.

(** Names bound by [Aircraft], [Dynamic] and [Settings]. *)
Context (names : VariableInfo).

(** Unit conversion performed by [AviaryValues.get_val(key, units=...)] and
    the text an f-string produces for a value. *)
Context (convert_units : val → string → string → val).
Context (format_val : val → string).

Local Abbreviation THRUST := (Dynamic_Mission_THRUST names).
Local Abbreviation THRUST_MAX := (Dynamic_Mission_THRUST_MAX names).
Local Abbreviation RPM := (Dynamic_Mission_RPM names).
Local Abbreviation SHAFT_POWER := (Dynamic_Mission_SHAFT_POWER names).
Local Abbreviation SHAFT_POWER_MAX := (Dynamic_Mission_SHAFT_POWER_MAX names).

(** The entries of [aviary_inputs] the module reads: the optional
    [Aircraft.Engine.FIXED_RPM] (value and units) and
    [Settings.VERBOSITY]. *)
Record AviaryValues : Type := {
  Aircraft_Engine_FIXED_RPM : option (val * string);
  Settings_VERBOSITY : Verbosity;
}.

(** [aviary_inputs.get_val(Aircraft.Engine.FIXED_RPM, units)], for an entry
    known to be present. *)
Definition get_val_FIXED_RPM (entry : val * string) (units : string) : val :=
  convert_units entry.1 entry.2 units.

(** Python class of a builder object, as far as [type(x) is EngineDeck]
    tells. *)
Inductive BuilderClass : Type :=
| EngineDeckClass
| GearboxBuilderClass
| UserBuilderClass.

Global Instance BuilderClass_eq_dec : EqDecision BuilderClass.
Proof. solve_decision. Defined.

(** A [SubsystemBuilderBase]: a name and the three build operations, each
    returning a system or [None]. *)
Record SubsystemBuilder : Type := {
  builder_class : BuilderClass;
  name : string;
  build_pre_mission : AviaryValues → gmap string string → option (System val);
  build_mission :
    nat → AviaryValues → gmap string string → option (System val);
  build_post_mission : AviaryValues → gmap string string → option (System val);
}.

Record BuildMethods : Type := {
  pre_mission_method : AviaryValues → gmap string string → option (System val);
  mission_method :
    nat → AviaryValues → gmap string string → option (System val);
  post_mission_method : AviaryValues → gmap string string → option (System val);
}.

(** Builders and components defined in other modules of the package; only
    their construction is visible from here. *)
Context (EngineDeck_methods :
           string → option AviaryValues → option (gmap string (list val * string))
           → list string → BuildMethods).
Context (GearboxBuilder_methods : string → bool → BuildMethods).
Context (PropellerPerformance :
           AviaryValues → nat → gmap string string → System val).

Definition EngineDeck (name : string) (options : option AviaryValues)
    (data : option (gmap string (list val * string)))
    (required_variables : list string) : SubsystemBuilder :=
  let m := EngineDeck_methods name options data required_variables in
  {| builder_class := EngineDeckClass; name := name;
     build_pre_mission := pre_mission_method m;
     build_mission := mission_method m;
     build_post_mission := post_mission_method m |}.

Definition GearboxBuilder (name : string) (include_constraints : bool)
  : SubsystemBuilder :=
  let m := GearboxBuilder_methods name include_constraints in
  {| builder_class := GearboxBuilderClass; name := name;
     build_pre_mission := pre_mission_method m;
     build_mission := mission_method m;
     build_post_mission := post_mission_method m |}.

(** *** TurbopropModel *)

Record TurbopropModel : Type := {
  model_name : string;
  options : option AviaryValues;
  shaft_power_model : option SubsystemBuilder;
  propeller_model : option SubsystemBuilder;
  gearbox_model : option SubsystemBuilder;
}.

(** [TurbopropModel.__init__] *)
Definition TurbopropModel_init (name : string) (options : option AviaryValues)
    (data : option (gmap string (list val * string)))
    (shaft_power_model propeller_model gearbox_model : option SubsystemBuilder)
  : TurbopropModel :=
  {| model_name := name;
     options := options;
     shaft_power_model :=
       match shaft_power_model with
       | None =>
           Some (EngineDeck (name +:+ "_engine_deck") options data
                   ["ALTITUDE"; "MACH"; "THROTTLE"])
       | Some m => Some m
       end;
     propeller_model := propeller_model;
     gearbox_model :=
       match gearbox_model with
       | None => Some (GearboxBuilder (name +:+ "_gearbox") true)
       | Some m => Some m
       end |}.

(** [TurbopropModel.build_pre_mission] *)
Definition TurbopropModel_build_pre_mission (self : TurbopropModel)
    (aviary_inputs : AviaryValues) (kwargs : gmap string string)
  : Py.result (Group val) :=
  let turboprop_group : Group val := [] in
  turboprop_group ←
    match shaft_power_model self with
    | Some shp_model =>
        if decide (builder_class shp_model = EngineDeckClass)
        then mret turboprop_group
        else match build_pre_mission shp_model aviary_inputs kwargs with
             | Some shp_model_pre_mission =>
                 mret (add_subsystem turboprop_group
                         (system_name shp_model_pre_mission)
                         shp_model_pre_mission [PName "*"] [] [])
             | None => mret turboprop_group
             end
    | None => Py.getattr None "build_pre_mission"
    end;
  gearbox_model ← Py.getattr (gearbox_model self) "build_pre_mission";
  let turboprop_group :=
    match build_pre_mission gearbox_model aviary_inputs kwargs with
    | Some gearbox_model_pre_mission =>
        add_subsystem turboprop_group
          (system_name gearbox_model_pre_mission)
          gearbox_model_pre_mission [PName "*"] [] []
    | None => turboprop_group
    end in
  let turboprop_group :=
    match propeller_model self with
    | Some propeller_model =>
        match build_pre_mission propeller_model aviary_inputs kwargs with
        | Some propeller_model_pre_mission =>
            add_subsystem turboprop_group
              (system_name propeller_model_pre_mission)
              propeller_model_pre_mission [PName "*"] [] []
        | None => turboprop_group
        end
    | None => turboprop_group
    end in
  mret turboprop_group.

(** [TurbopropModel.build_post_mission] *)
Definition TurbopropModel_build_post_mission (self : TurbopropModel)
    (aviary_inputs : AviaryValues) (kwargs : gmap string string)
  : Py.result (Group val) :=
  let turboprop_group : Group val := [] in
  shp_model ← Py.getattr (shaft_power_model self) "build_post_mission";
  turboprop_group ←
    match build_post_mission shp_model aviary_inputs kwargs with
    | Some shp_model_post_mission =>
        add_subsystem_kw turboprop_group (name shp_model)
          shp_model_post_mission [] [] [] ["aviary_options"]
    | None => mret turboprop_group
    end;
  gearbox_model ← Py.getattr (gearbox_model self) "build_post_mission";
  turboprop_group ←
    match build_post_mission gearbox_model aviary_inputs kwargs with
    | Some gearbox_model_post_mission =>
        add_subsystem_kw turboprop_group (name gearbox_model)
          gearbox_model_post_mission [] [] [] ["aviary_options"]
    | None => mret turboprop_group
    end;
  match propeller_model self with
  | Some propeller_model =>
      match build_post_mission propeller_model aviary_inputs kwargs with
      | Some propeller_model_post_mission =>
          add_subsystem_kw turboprop_group (name propeller_model)
            propeller_model_post_mission [] [] [] ["aviary_options"]
      | None => mret turboprop_group
      end
  | None => mret turboprop_group
  end.

(** *** TurbopropMission *)

(** The options declared in [TurbopropMission.initialize]. *)
Record TurbopropMissionOptions : Type := {
  opt_num_nodes : nat;
  opt_shaft_power_model : option SubsystemBuilder;
  opt_propeller_model : option SubsystemBuilder;
  opt_gearbox_model : option SubsystemBuilder;
  opt_kwargs : gmap string (gmap string string);
  opt_aviary_inputs : AviaryValues;
}.

(** [TurbopropModel.build_mission] *)
Definition TurbopropModel_build_mission (self : TurbopropModel)
    (num_nodes : nat) (aviary_inputs : AviaryValues)
    (kwargs : gmap string (gmap string string)) : TurbopropMissionOptions :=
  {| opt_num_nodes := num_nodes;
     opt_shaft_power_model := shaft_power_model self;
     opt_propeller_model := propeller_model self;
     opt_gearbox_model := gearbox_model self;
     opt_kwargs := kwargs;
     opt_aviary_inputs := aviary_inputs |}.

(** [kwargs[model.name]] under [except (AttributeError, KeyError)]. *)
Definition stage_kwargs (kwargs : gmap string (gmap string string))
    (model : option SubsystemBuilder) : gmap string string :=
  match model with
  | Some m => default ∅ (kwargs !! name m)
  | None => ∅
  end.

(** The inputs of the Hamilton Standard model promoted from its max
    instance. *)
Definition prop_inputs : list string :=
  [ Dynamic_Mission_MACH names;
    Aircraft_Engine_PROPELLER_TIP_SPEED_MAX names;
    Aircraft_Engine_PROPELLER_TIP_MACH_MAX names;
    Dynamic_Mission_DENSITY names;
    Dynamic_Mission_VELOCITY names;
    Aircraft_Engine_PROPELLER_DIAMETER names;
    Aircraft_Engine_PROPELLER_ACTIVITY_FACTOR names;
    Aircraft_Engine_PROPELLER_INTEGRATED_LIFT_COEFFICIENT names;
    Aircraft_Nacelle_AVG_DIAMETER names;
    Dynamic_Mission_SPEED_OF_SOUND names;
    RPM ].

(** The "Propeller Model" block of [setup]: the name and the group that
    [setup] attaches for the propeller. *)
Definition propeller_group (o : TurbopropMissionOptions)
  : Py.result (string * Group val) :=
  let num_nodes := opt_num_nodes o in
  let aviary_inputs := opt_aviary_inputs o in
  let kwargs := opt_kwargs o in
  let propeller_kwargs := stage_kwargs kwargs (opt_propeller_model o) in
  match opt_propeller_model o with
  | Some propeller_model =>
      let propeller_group : Group val := [] in
      propeller_group ←
        match build_mission propeller_model num_nodes aviary_inputs
                propeller_kwargs with
        | Some propeller_model_mission =>
            let propeller_group :=
              add_subsystem propeller_group (name propeller_model +:+ "_base")
                propeller_model_mission [] [PName "*"] [PName THRUST] in
            propeller_model_mission_max ←
              Py.getattr (build_mission propeller_model num_nodes
                            aviary_inputs propeller_kwargs) "name";
            mret (add_subsystem propeller_group
                    (name propeller_model +:+ "_max")
                    propeller_model_mission_max []
                    [PName "*"; PAlias SHAFT_POWER SHAFT_POWER_MAX]
                    [PAlias THRUST THRUST_MAX])
        | None => mret propeller_group
        end;
      mret (name propeller_model, propeller_group)
  | None =>
      let propeller_kwargs := default ∅ (kwargs !! "hamilton_standard") in
      let propeller_group : Group val := [] in
      let propeller_group :=
        add_subsystem propeller_group "propeller_model_base"
          (PropellerPerformance aviary_inputs num_nodes propeller_kwargs)
          [PName "*"] [] [] in
      let propeller_group :=
        add_subsystem propeller_group "propeller_model_max"
          (PropellerPerformance aviary_inputs num_nodes propeller_kwargs)
          []
          ((PName <$> prop_inputs) ++ [PAlias SHAFT_POWER SHAFT_POWER_MAX])
          [PAlias THRUST THRUST_MAX] in
      mret ("propeller_model", propeller_group)
  end.

Definition thrust_adder (num_nodes : nat) : System val :=
  ExecComp "turboprop_thrust"
    (Add (Var "turboshaft_thrust") (Var "propeller_thrust"))
    [ ("turboprop_thrust", (np_zeros num_nodes, "lbf"));
      ("turboshaft_thrust", (np_zeros num_nodes, "lbf"));
      ("propeller_thrust", (np_zeros num_nodes, "lbf")) ].

Definition max_thrust_adder (num_nodes : nat) : System val :=
  ExecComp "turboprop_thrust_max"
    (Add (Var "turboshaft_thrust_max") (Var "propeller_thrust_max"))
    [ ("turboprop_thrust_max", (np_zeros num_nodes, "lbf"));
      ("turboshaft_thrust_max", (np_zeros num_nodes, "lbf"));
      ("propeller_thrust_max", (np_zeros num_nodes, "lbf")) ].

(** [TurbopropMission.setup] *)
Definition setup (o : TurbopropMissionOptions) : Py.result (Group val) :=
  let num_nodes := opt_num_nodes o in
  let kwargs := opt_kwargs o in
  let aviary_inputs := opt_aviary_inputs o in
  let self : Group val := [] in
  let shp_kwargs := stage_kwargs kwargs (opt_shaft_power_model o) in
  shp_model ← Py.getattr (opt_shaft_power_model o) "build_mission";
  let self :=
    match build_mission shp_model num_nodes aviary_inputs shp_kwargs with
    | Some shp_model_mission =>
        add_subsystem self (name shp_model) shp_model_mission [] [] []
    | None => self
    end in
  let self := add_subsystem self "fixed_rpm_source" (IndepVarComp []) [] [] [] in
  let gearbox_kwargs := stage_kwargs kwargs (opt_gearbox_model o) in
  let self :=
    match opt_gearbox_model o with
    | Some gearbox_model =>
        match build_mission gearbox_model num_nodes aviary_inputs
                gearbox_kwargs with
        | Some gearbox_model_mission =>
            add_subsystem self (name gearbox_model) gearbox_model_mission
              [] [] []
        | None => self
        end
    | None => self
    end in
  pg ← propeller_group o;
  let self := add_subsystem self pg.1 (GroupSys pg.2) [] [] [] in
  let self :=
    add_subsystem self "thrust_adder" (thrust_adder num_nodes)
      [] [PName "*"] [PAlias "turboprop_thrust" THRUST] in
  let self :=
    add_subsystem self "max_thrust_adder" (max_thrust_adder num_nodes)
      [] [PName "*"] [PAlias "turboprop_thrust_max" THRUST_MAX] in
  mret self.

(** The promotion lists and the fixed-RPM source that [configure] builds
    before it applies them; [w_gearbox] holds [gearbox_inputs] and
    [gearbox_outputs], which exist only with a gearbox. *)
Record Wiring : Type := {
  shp_inputs : list promote;
  shp_outputs : list promote;
  w_gearbox : option (list promote * list promote);
  propeller_inputs : list promote;
  propeller_outputs : list promote;
  fixed_rpm_nn : option (list val);
  fixed_rpm_source_promotes : list promote;
  warnings : list string;
}.

(** "SHP MODEL" block: the thrust outputs of the shaft power model. *)
Definition shp_thrust_outputs (shp_output_set : gset string)
    (shp_outputs : list promote) : list promote :=
  let shp_outputs :=
    if decide (THRUST ∈ shp_output_set)
    then shp_outputs ++ [PAlias THRUST "turboshaft_thrust"]
    else shp_outputs in
  if decide (THRUST_MAX ∈ shp_output_set)
  then shp_outputs ++ [PAlias THRUST_MAX "turboshaft_thrust_max"]
  else shp_outputs.

(** Body of the loop of the "SHP -> GEARBOX" block. *)
Definition shp_to_gearbox_var (shp_output_set gearbox_input_set : gset string)
    (lists : list promote * list promote) (var : string)
  : list promote * list promote :=
  let '(shp_outputs, gearbox_inputs) := lists in
  if bool_decide (var ∈ shp_output_set)
     && bool_decide (var ∈ gearbox_input_set)
     && bool_decide (var ≠ RPM)
  then (shp_outputs ++ [PAlias var (var +:+ "_gearbox")],
        gearbox_inputs ++ [PAlias var (var +:+ "_gearbox")])
  else if bool_decide (var ∈ shp_output_set)
          && bool_decide (var +:+ "_in" ∈ gearbox_input_set)
          && bool_decide (var ≠ RPM)
  then (shp_outputs ++ [PAlias var (var +:+ "_gearbox")],
        gearbox_inputs ++ [PAlias (var +:+ "_in") (var +:+ "_gearbox")])
  else lists.

(** "SHP -> GEARBOX" block: [for var in shp_output_set]. *)
Definition shp_to_gearbox (shp_output_set gearbox_input_set : gset string)
    (shp_outputs gearbox_inputs : list promote)
  : list promote * list promote :=
  foldl (shp_to_gearbox_var shp_output_set gearbox_input_set)
    (shp_outputs, gearbox_inputs) (elements shp_output_set).

(** "GEARBOX -> PROPELLER" block: [for var in propeller_input_set]. *)
Definition gearbox_to_propeller
    (propeller_input_set gearbox_output_set : gset string)
    (gearbox_outputs : list promote) : list promote :=
  foldl (λ gearbox_outputs var,
           if bool_decide (var +:+ "_out" ∈ gearbox_output_set)
              && bool_decide (var ∈ propeller_input_set)
           then gearbox_outputs ++ [PAlias (var +:+ "_out") var]
           else gearbox_outputs)
    gearbox_outputs (elements propeller_input_set).

(** The wiring part of [configure], from the name of the shaft power
    subsystem, the sets of promoted names found on the subsystems (the
    gearbox sets are its inputs and outputs, present with a gearbox) and
    the settings. *)
Definition wire (shp_model_name : string) (shp_output_set : gset string)
    (gearbox_sets : option (gset string * gset string))
    (propeller_input_set : gset string)
    (aviary_inputs : AviaryValues) (num_nodes : nat) : Py.result Wiring :=
  let shp_inputs := [PName "*"] in
  let shp_outputs := [PName "*"] in
  let gearbox := (λ _, ([PName "*"], [PName "*"])) <$> gearbox_sets in
  let propeller_inputs := [PName "*"] in
  let propeller_outputs :=
    [PName "*"; PAlias THRUST "propeller_thrust";
     PAlias THRUST_MAX "propeller_thrust_max"] in
  let shp_outputs := shp_thrust_outputs shp_output_set shp_outputs in
  let '(shp_outputs, gearbox) :=
    match gearbox_sets, gearbox with
    | Some (gearbox_input_set, _), Some (gearbox_inputs, gearbox_outputs) =>
        let r := shp_to_gearbox shp_output_set gearbox_input_set
                   shp_outputs gearbox_inputs in
        (r.1, Some (r.2, gearbox_outputs))
    | _, _ => (shp_outputs, gearbox)
    end in
  '(shp_outputs, gearbox, rpm, rpm_promotes, warnings) ←
    match Aircraft_Engine_FIXED_RPM aviary_inputs with
    | Some entry =>
        let fixed_rpm := get_val_FIXED_RPM entry "rpm" in
        let '(warnings, shp_outputs) :=
          if decide (RPM ∈ shp_output_set)
          then
            ((if bool_decide
                   (verbosity_level BRIEF
                    ≤ verbosity_level (Settings_VERBOSITY aviary_inputs))%Z
              then ["Overriding RPM value outputted by EngineModel"
                    +:+ shp_model_name +:+ " with fixed RPM of "
                    +:+ format_val fixed_rpm]
              else []),
             shp_outputs ++ [PAlias RPM ("AUTO_OVERRIDE:" +:+ RPM)])
          else ([], shp_outputs) in
        let fixed_rpm_nn := (λ x, fmul x fixed_rpm) <$> np_ones num_nodes in
        match gearbox with
        | Some (gearbox_inputs, gearbox_outputs) =>
            mret (shp_outputs,
                  Some (gearbox_inputs ++ [PAlias (RPM +:+ "_in") "fixed_rpm"],
                        gearbox_outputs),
                  Some fixed_rpm_nn, [PAlias RPM "fixed_rpm"], warnings)
        | None =>
            mret (shp_outputs, gearbox, Some fixed_rpm_nn, [PName "*"],
                  warnings)
        end
    | None =>
        match gearbox with
        | Some (gearbox_inputs, gearbox_outputs) =>
            _ ← Py.call_list (R := unit) shp_outputs
                  (RPM, RPM +:+ "_gearbox");
            _ ← Py.call_list (R := unit) gearbox_inputs
                  (RPM +:+ "_in", RPM +:+ "_gearbox");
            mret (shp_outputs, gearbox, None, [], [])
        | None => mret (shp_outputs, gearbox, None, [], [])
        end
    end;
  let gearbox :=
    match gearbox_sets, gearbox with
    | Some (_, gearbox_output_set), Some (gearbox_inputs, gearbox_outputs) =>
        Some (gearbox_inputs,
              gearbox_to_propeller propeller_input_set gearbox_output_set
                gearbox_outputs)
    | _, _ => gearbox
    end in
  mret {| shp_inputs := shp_inputs;
          shp_outputs := shp_outputs;
          w_gearbox := gearbox;
          propeller_inputs := propeller_inputs;
          propeller_outputs := propeller_outputs;
          fixed_rpm_nn := rpm;
          fixed_rpm_source_promotes := rpm_promotes;
          warnings := warnings |}.

(** "PROMOTIONS" block, together with the two calls on [fixed_rpm_source]
    that [configure] makes while handling a fixed RPM. *)
Definition apply_wiring (self : Group val) (shp_model_name : string)
    (gearbox_model_name : option string) (propeller_model_name : string)
    (w : Wiring) : Group val :=
  let self :=
    match fixed_rpm_nn w with
    | Some nn =>
        promotes (add_output self "fixed_rpm_source" RPM nn "rpm")
          "fixed_rpm_source" (fixed_rpm_source_promotes w) [] []
    | None => self
    end in
  let self := promotes self shp_model_name [] (shp_inputs w) (shp_outputs w) in
  let self :=
    match gearbox_model_name, w_gearbox w with
    | Some gearbox_name, Some (gearbox_inputs, gearbox_outputs) =>
        promotes self gearbox_name [] gearbox_inputs gearbox_outputs
    | _, _ => self
    end in
  promotes self propeller_model_name []
    (propeller_inputs w) (propeller_outputs w).

(** [has_gearbox = self.options['gearbox_model'] is not None] *)
Definition has_gearbox (o : TurbopropMissionOptions) : bool :=
  match opt_gearbox_model o with
  | Some _ => true
  | None => false
  end.

(** [TurbopropMission.configure], on the group left by [setup]; returns the
    configured group and the warnings issued. *)
Definition configure (o : TurbopropMissionOptions) (self : Group val)
  : Py.result (Group val * list string) :=
  let has_gearbox := has_gearbox o in
  shp_builder ← Py.getattr (opt_shaft_power_model o) "name";
  shp_model ← Py.getattr (_get_subsystem self (name shp_builder)) "list_outputs";
  let shp_output_set := prom_name_set (list_outputs (sub_sys shp_model)) in
  gearbox_sets ←
    (if has_gearbox
     then
       gearbox_builder ← Py.getattr (opt_gearbox_model o) "name";
       gearbox_model ←
         Py.getattr (_get_subsystem self (name gearbox_builder)) "list_inputs";
       mret (Some (prom_name_set (list_inputs (sub_sys gearbox_model)),
                   prom_name_set (list_outputs (sub_sys gearbox_model))))
     else mret None);
  let propeller_model_name :=
    match opt_propeller_model o with
    | None => "propeller_model"
    | Some propeller_builder => name propeller_builder
    end in
  propeller_model ←
    Py.getattr (_get_subsystem self propeller_model_name) "list_inputs";
  let propeller_input_set :=
    prom_name_set (list_inputs (sub_sys propeller_model)) in
  w ← wire (sub_name shp_model) shp_output_set gearbox_sets
        propeller_input_set (opt_aviary_inputs o) (opt_num_nodes o);
  mret (apply_wiring self (sub_name shp_model)
          (name <$> opt_gearbox_model o) propeller_model_name w,
        warnings w).

(** The per-node group: [setup] followed by [configure]. *)
Definition TurbopropMission (o : TurbopropMissionOptions)
  : Py.result (Group val * list string) :=
  self ← setup o;
  configure o self.

End Aviary.

(** ** A concrete setting *)

Module Scenario.

Global Instance Z_numeric : Numeric Z :=
  {| fzero := 0%Z; fone := 1%Z; fadd := Z.add; fmul := Z.mul |}.

(** Modelled from the spec: the port names of the specification's
    scenarios ([thrust], [thrust_max], [rpm], [shaft_power]), standing for
    the constants of [aviary.variable_info.variables]. *)
Definition names : VariableInfo :=
  {| Dynamic_Mission_THRUST := "thrust";
     Dynamic_Mission_THRUST_MAX := "thrust_max";
     Dynamic_Mission_RPM := "rpm";
     Dynamic_Mission_SHAFT_POWER := "shaft_power";
     Dynamic_Mission_SHAFT_POWER_MAX := "shaft_power_max";
     Dynamic_Mission_MACH := "mach";
     Dynamic_Mission_DENSITY := "density";
     Dynamic_Mission_VELOCITY := "velocity";
     Dynamic_Mission_SPEED_OF_SOUND := "speed_of_sound";
     Aircraft_Engine_PROPELLER_TIP_SPEED_MAX := "propeller_tip_speed_max";
     Aircraft_Engine_PROPELLER_TIP_MACH_MAX := "propeller_tip_mach_max";
     Aircraft_Engine_PROPELLER_DIAMETER := "propeller_diameter";
     Aircraft_Engine_PROPELLER_ACTIVITY_FACTOR := "propeller_activity_factor";
     Aircraft_Engine_PROPELLER_INTEGRATED_LIFT_COEFFICIENT :=
       "propeller_integrated_lift_coefficient";
     Aircraft_Nacelle_AVG_DIAMETER := "nacelle_avg_diameter" |}.

(** Values are already in rpm; they print as a fixed token. *)
Definition convert_units (x : Z) (from to : string) : Z := x.
Definition format_val (x : Z) : string := "<rpm>".

Definition stage (n : string) (ins outs : list string)
  : SubsystemBuilder (val := Z) :=
  {| builder_class := UserBuilderClass; name := n;
     build_pre_mission := λ _ _, Some (Stage n ins outs);
     build_mission := λ _ _ _, Some (Stage n ins outs);
     build_post_mission := λ _ _, Some (Stage n ins outs) |}.

Definition turboshaft : SubsystemBuilder (val := Z) :=
  stage "turboshaft" ["throttle"]
    ["thrust"; "thrust_max"; "rpm"; "shaft_power"; "shaft_power_max"].

(** A power source that produces no RPM. *)
Definition motor : SubsystemBuilder (val := Z) :=
  stage "motor" ["throttle"] ["shaft_power"; "shaft_power_max"].

Definition gearbox : SubsystemBuilder (val := Z) :=
  stage "gearbox" ["shaft_power_in"; "rpm_in"] ["shaft_power_out"; "rpm_out"].

Definition propeller : SubsystemBuilder (val := Z) :=
  stage "propeller" ["shaft_power"; "rpm"; "mach"] ["thrust"].

Definition inputs (fixed_rpm : option (Z * string)) (v : Verbosity)
  : AviaryValues (val := Z) :=
  {| Aircraft_Engine_FIXED_RPM := fixed_rpm; Settings_VERBOSITY := v |}.

Definition mission (shp : SubsystemBuilder (val := Z))
    (gb : option (SubsystemBuilder (val := Z)))
    (fixed_rpm : option (Z * string)) (v : Verbosity) (num_nodes : nat)
  : TurbopropMissionOptions :=
  {| opt_num_nodes := num_nodes;
     opt_shaft_power_model := Some shp;
     opt_propeller_model := Some propeller;
     opt_gearbox_model := gb;
     opt_kwargs := ∅;
     opt_aviary_inputs := inputs fixed_rpm v |}.

(** The built-in propeller component, with the inputs [setup] promotes. *)
Definition hamilton_standard (_ : AviaryValues (val := Z)) (_ : nat)
    (_ : gmap string string) : System Z :=
  Stage "" ("shaft_power" :: prop_inputs names) ["thrust"].

Definition run (o : TurbopropMissionOptions)
  : Py.result (Group Z * list string) :=
  TurbopropMission names convert_units format_val hamilton_standard o.

(** Library builders whose build operations all return [None]. *)
Definition no_methods : BuildMethods (val := Z) :=
  {| pre_mission_method := λ _ _, None;
     mission_method := λ _ _ _, None;
     post_mission_method := λ _ _, None |}.

(** A [TurbopropModel] given its three stages. *)
Definition model : TurbopropModel :=
  TurbopropModel_init (λ _ _ _ _, no_methods) (λ _ _, no_methods)
    "turboprop_model" None None
    (Some turboshaft) (Some propeller) (Some gearbox).

End Scenario.

From Stdlib Require Import OrderedTypeEx.
From stdpp Require Import sorting.

(** ** The dashboard: a case recorder file as a data frame *)

(** A shallow embedding of [convert_case_recorder_file_to_df] of
    [aviary/visualization/dashboard.py]. The case recorder file is the list
    of its driver cases, in recording order; [np.linalg.norm] is a
    parameter. *)
Module Dashboard.

Inductive exn : Type :=
| KeyError (key : string)
| ValueError (msg : string)
| AttributeError (msg : string).

Inductive result (A : Type) : Type :=
| Ok (a : A)
| Raise (e : exn).
Arguments Ok {A} a.
Arguments Raise {A} e.

Definition bind {A B} (m : result A) (k : A → result B) : result B :=
  match m with
  | Ok a => k a
  | Raise e => Raise e
  end.

Definition is_ok {A} (m : result A) : bool :=
  match m with Ok _ => true | Raise _ => false end.

(** A Python [dict] with string keys, in insertion order. *)
Definition dict (A : Type) : Type := list (string * A).

Definition keys {A} (d : dict A) : list string := d.*1.

(** [d[key]] *)
Definition getitem {A} (d : dict A) (key : string) : result A :=
  match find (λ e, bool_decide (e.1 = key)) d with
  | Some e => Ok e.2
  | None => Raise (KeyError key)
  end.

Section DataFrame.

Context {val : Type}.
Context (norm : list val → val).

(** The value recorded for a variable: a scalar or an array. *)
Inductive value : Type :=
| Scalar (x : val)
| Array (xs : list val).

(** A driver case, with what [get_design_vars], [get_objectives] and
    [get_constraints] return for it. *)
Record Case : Type := {
  get_design_vars : dict value;
  get_objectives : dict value;
  get_constraints : dict value;
}.

(** An entry of a row: the iteration count or the value of a variable. *)
Inductive cell : Type :=
| IterCount (i : nat)
| Value (x : val).

(** A [pandas.DataFrame]: the column labels and the rows under their index
    labels. *)
Record DataFrame : Type := {
  columns : list string;
  rows : list (nat * list cell);
}.

(** [df.loc[i] = row]: the row labelled [i] is replaced, or appended when
    there is none; a row that has not one entry per column is refused. *)
Definition loc_setitem (df : option DataFrame) (i : nat) (row : list cell)
  : result (option DataFrame) :=
  match df with
  | None =>
      Raise (AttributeError "'NoneType' object has no attribute 'loc'")
  | Some df =>
      if bool_decide (length row = length (columns df))
      then
        let rows :=
          if bool_decide (i ∈ (rows df).*1)
          then (λ r, if decide (r.1 = i) then (i, row) else r) <$> rows df
          else rows df ++ [(i, row)] in
        Ok (Some {| columns := columns df; rows := rows |})
      else Raise (ValueError "cannot set a row with mismatched columns")
  end.

(** The loops that keep the names not seen so far:
    [for name in initial: if name not in all_var_names: ...]. *)
Definition new_names (all_var_names initial : list string)
  : list string * list string :=
  foldl (λ '(names, all_var_names) name,
           if bool_decide (name ∉ all_var_names)
           then (names ++ [name], all_var_names ++ [name])
           else (names, all_var_names))
    ([], all_var_names) initial.

(** [if not np.isscalar(value): value = np.linalg.norm(value)] *)
Definition scalar_value (v : value) : val :=
  match v with
  | Scalar x => x
  | Array xs => norm xs
  end.

(** [for varname in names: value = d[varname]; ...; row.append(value)] *)
Definition append_values (row : list cell) (names : list string)
    (d : dict value) : result (list cell) :=
  foldl (λ row varname,
           bind row (λ row,
           bind (getitem d varname) (λ value,
           Ok (row ++ [Value (scalar_value value)]))))
    (Ok row) names.

(** The variables that live across the iterations of the loop over the
    driver cases. The three lists of names are bound in the first
    iteration and not read before. *)
Record Frame : Type := {
  objectives_names : list string;
  constraints_names : list string;
  desvars_names : list string;
  df : option DataFrame;
}.

(** The block under [if i == 0]: the names of the columns, objectives
    first, then the constraints and the design variables not seen before,
    and the empty data frame. *)
Definition header (driver_case : Case) : Frame :=
  let desvars := get_design_vars driver_case in
  let objectives := get_objectives driver_case in
  let constraints := get_constraints driver_case in
  let initial_desvars_names := keys desvars in
  let initial_constraints_names := keys constraints in
  let objectives_names := keys objectives in
  let all_var_names := objectives_names in
  let '(constraints_names, all_var_names) :=
    new_names all_var_names initial_constraints_names in
  let '(desvars_names, all_var_names) :=
    new_names all_var_names initial_desvars_names in
  let header := ["iter_count"] ++ all_var_names in
  {| objectives_names := objectives_names;
     constraints_names := constraints_names;
     desvars_names := desvars_names;
     df := Some {| columns := header; rows := [] |} |}.

(** The block that fills up a row and stores it under the label [i]. *)
Definition add_row (st : Frame) (i : nat) (driver_case : Case)
  : result Frame :=
  let desvars := get_design_vars driver_case in
  let objectives := get_objectives driver_case in
  let constraints := get_constraints driver_case in
  let row := [IterCount i] in
  bind (append_values row (objectives_names st) objectives) (λ row,
  bind (append_values row (constraints_names st) constraints) (λ row,
  bind (append_values row (desvars_names st) desvars) (λ row,
  bind (loc_setitem (df st) i row) (λ df,
  Ok {| objectives_names := objectives_names st;
        constraints_names := constraints_names st;
        desvars_names := desvars_names st;
        df := df |})))).

(** The body of [for i, case in enumerate(driver_cases)]. *)
Definition add_case (st : Frame) (i : nat) (driver_case : Case)
  : result Frame :=
  let st := if Nat.eqb i 0 then header driver_case else st in
  add_row st i driver_case.

Fixpoint for_cases (st : Frame) (i : nat) (driver_cases : list Case)
  : result Frame :=
  match driver_cases with
  | [] => Ok st
  | driver_case :: driver_cases =>
      bind (add_case st i driver_case) (λ st,
      for_cases st (S i) driver_cases)
  end.

(** [convert_case_recorder_file_to_df], on the driver cases of the file. *)
Definition convert_case_recorder_file_to_df (driver_cases : list Case)
  : result (option DataFrame) :=
  let st := {| objectives_names := []; constraints_names := [];
               desvars_names := []; df := None |} in
  bind (for_cases st 0 driver_cases) (λ st, Ok (df st)).

End DataFrame.

Arguments value val : clear implicits.
Arguments Case val : clear implicits.
Arguments cell val : clear implicits.
Arguments DataFrame val : clear implicits.
Arguments Frame val : clear implicits.

(** *** The table of Aviary variables *)

(** A shallow embedding of [create_aviary_variables_table_data_nested]. The
    recorder file is given by the names of its cases and the outputs listed
    for the case [final]; the files written are kept in a map from paths to
    contents. *)

Module Table.

Definition aviary_variables_json_file_name : string := "aviary_vars.json".

(** [d[key] = a] *)
Definition setitem {A} (d : dict A) (key : string) (a : A) : dict A :=
  if bool_decide (key ∈ keys d)
  then (λ e, if decide (e.1 = key) then (key, a) else e) <$> d
  else d ++ [(key, a)].

(** The order of [str]: character codes compared from the left. *)
Definition str_le (s1 s2 : string) : Prop := String.leb s1 s2 = true.

Global Instance str_le_dec : RelDecision str_le.
Proof. intros s1 s2. unfold str_le. apply _. Defined.

(** [sorted(names)] *)
Definition sorted (names : list string) : list string :=
  merge_sort str_le names.

(** [s.split(":")[0]] *)
Fixpoint split_head (s : string) : string :=
  match s with
  | EmptyString => EmptyString
  | String c s' =>
      if Ascii.eqb c ":"%char then EmptyString else String c (split_head s')
  end.

(** [for x in l: out.append(f(x))] *)
Fixpoint for_each {A B} (f : A → result B) (l : list A) : result (list B) :=
  match l with
  | [] => Ok []
  | x :: l =>
      bind (f x) (λ y, bind (for_each f l) (λ ys, Ok (y :: ys)))
  end.

Section VariablesTable.

Context {V J M : Type}.
Context (convert_ndarray_to_support_nans_in_json : V → J).
Context (CoreMetaData_get : string → option M).
Context (json_dumps : option M → string).

(** What [list_outputs] reports for a variable, as far as the table uses
    it. *)
Record Output : Type := {
  output_prom_name : string;
  output_val : V;
  output_units : string;
}.

(** The entry of a variable. *)
Record VarEntry : Type := {
  abs_name : string;
  prom_name : string;
  value : J;
  units : string;
  metadata : string;
}.

(** An entry of the table: a variable, or a group of variables with empty
    [prom_name], [value] and [units] and the variables as [_children]. *)
Inductive Entry : Type :=
| Variable_ (entry : VarEntry)
| Group_ (group_abs_name : string) (_children : list VarEntry).

(** The loop that groups the sorted names by their prefix. *)
Definition group_by_prefix (sorted_abs_names : list string)
  : result (dict (list string)) :=
  foldl (λ grouped s,
           bind grouped (λ grouped,
           let prefix := split_head s in
           let grouped :=
             if bool_decide (prefix ∉ keys grouped)
             then setitem grouped prefix []
             else grouped in
           bind (getitem grouped prefix) (λ members,
           Ok (setitem grouped prefix (members ++ [s])))))
    (Ok []) sorted_abs_names.

(** The dictionary built for the variable [var], under the name
    [abs_name]. *)
Definition var_entry (outputs : dict Output) (abs_name var : string)
  : result VarEntry :=
  bind (getitem outputs var) (λ info,
  let prom_name := output_prom_name info in
  let aviary_metadata := CoreMetaData_get prom_name in
  Ok {| abs_name := abs_name;
        prom_name := prom_name;
        value := convert_ndarray_to_support_nans_in_json (output_val info);
        units := output_units info;
        metadata := json_dumps aviary_metadata |}).

(** The body of [for group_name in sorted_group_names]. *)
Definition table_entry (outputs : dict Output) (grouped : dict (list string))
    (group_name : string) : result Entry :=
  bind (getitem grouped group_name) (λ members,
  match members with
  | [var_info] =>
      bind (var_entry outputs group_name var_info) (λ entry,
      Ok (Variable_ entry))
  | _ =>
      bind (for_each (λ children_name,
                        var_entry outputs children_name children_name)
              members) (λ children_list,
      Ok (Group_ group_name children_list))
  end).

Definition create_aviary_variables_table_data_nested
    (files : gmap string (list Entry)) (script_name : string)
    (list_cases : list string) (outputs : dict Output)
  : result (gmap string (list Entry) * option (list Entry)) :=
  if bool_decide ("final" ∉ list_cases) then Ok (files, None)
  else
    let sorted_abs_names := sorted (keys outputs) in
    bind (group_by_prefix sorted_abs_names) (λ grouped,
    let sorted_group_names := sorted (keys grouped) in
    bind (for_each (table_entry outputs grouped) sorted_group_names)
      (λ table_data_nested,
    let aviary_variables_file_path :=
      "reports/" +:+ script_name +:+ "/aviary_vars/"
      +:+ aviary_variables_json_file_name in
    Ok (<[aviary_variables_file_path := table_data_nested]> files,
        Some table_data_nested))).

End VariablesTable.

Arguments Output V : clear implicits.
Arguments VarEntry J : clear implicits.
Arguments Entry J : clear implicits.

(** The outputs of a small problem: two variables under [aircraft], one
    under [mission]. *)
Definition example_outputs : dict (Output Z) :=
  [ ("mission:range",
     {| output_prom_name := "mission:range"; output_val := 3500%Z;
        output_units := "nmi" |});
    ("aircraft:wing:span",
     {| output_prom_name := "aircraft:wing:span"; output_val := 118%Z;
        output_units := "ft" |});
    ("aircraft:wing:area",
     {| output_prom_name := "aircraft:wing:area"; output_val := 1370%Z;
        output_units := "ft**2" |}) ].

(** The table of the example, with values kept as they are, no metadata
    and the metadata printed as [null]. *)
Definition example_table
  : result (gmap string (list (Entry Z)) * option (list (Entry Z))) :=
  create_aviary_variables_table_data_nested (M := unit) (λ x, x)
    (λ _, None) (λ _, "null") ∅ "run" ["final"] example_outputs.

End Table.

(** Two recorded iterations of a problem with objective [mass], constraint
    [range] and design variables [span] and [mass]. *)
Definition example_cases : list (Case Z) :=
  [ {| get_design_vars := [("span", Scalar 30%Z); ("mass", Scalar 7%Z)];
       get_objectives := [("mass", Scalar 7%Z)];
       get_constraints := [("range", Array [3%Z; 4%Z])] |};
    {| get_design_vars := [("span", Scalar 31%Z); ("mass", Scalar 6%Z)];
       get_objectives := [("mass", Scalar 6%Z)];
       get_constraints := [("range", Array [6%Z; 8%Z])] |} ].

(** A stand-in for the Euclidean norm on the example: the sum of the
    entries. *)
Definition example_norm (xs : list Z) : Z := foldr Z.add 0%Z xs.

End Dashboard.

(** ** Strings and promotion lists *)




Lemma last_alias_snoc (l : list promote) (p : promote) (v : string) :
  last_alias (l ++ [p]) v =
  match p with
  | PAlias old new => if decide (old = v) then Some new else last_alias l v
  | PName _ => last_alias l v
  end.
Proof. unfold last_alias. by rewrite foldl_snoc. Qed.

Lemma last_alias_snoc_eq (l : list promote) (v new : string) :
  last_alias (l ++ [PAlias v new]) v = Some new.
Proof. rewrite last_alias_snoc. by rewrite decide_True. Qed.

Lemma last_alias_snoc_ne (l : list promote) (old new v : string) :
  old ≠ v → last_alias (l ++ [PAlias old new]) v = last_alias l v.
Proof. intros. rewrite last_alias_snoc. by rewrite decide_False. Qed.

(** A list whose only string entry is the wildcard resolves a name through
    its rename tuples, then through the wildcard. *)
Lemma promoted_name_wildcard (l : list promote) (v : string) :
  (∀ s, PName s ∈ l → s = "*") →
  promoted_name l v =
  match last_alias l v with
  | Some new => Some new
  | None => if bool_decide (PName "*" ∈ l) then Some v else None
  end.
Proof.
  intros Hstar. unfold promoted_name.
  rewrite bool_decide_eq_false_2; [done |].
  intros [Hne Hin]. by apply Hne, Hstar.
Qed.

Lemma elem_of_PName_snoc (l : list promote) (old new s : string) :
  PName s ∈ l ++ [PAlias old new] ↔ PName s ∈ l.
Proof.
  rewrite elem_of_app, list_elem_of_singleton.
  split; [intros [? | ?]; [done | discriminate] | by left].
Qed.

Lemma promoted_name_snoc_ne (l : list promote) (old new v : string) :
  old ≠ v → promoted_name (l ++ [PAlias old new]) v = promoted_name l v.
Proof.
  intros Hne. unfold promoted_name. rewrite last_alias_snoc_ne by done.
  rewrite (bool_decide_ext _ (v ≠ "*" ∧ PName v ∈ l))
    by (by rewrite elem_of_PName_snoc).
  by rewrite (bool_decide_ext (PName "*" ∈ l ++ _) (PName "*" ∈ l))
    by apply elem_of_PName_snoc.
Qed.

Lemma promoted_name_snoc_eq (l : list promote) (v new : string) :
  (∀ s, PName s ∈ l → s = "*") →
  promoted_name (l ++ [PAlias v new]) v = Some new.
Proof.
  intros Hstar. rewrite promoted_name_wildcard.
  - by rewrite last_alias_snoc_eq.
  - intros s Hs%elem_of_PName_snoc. by apply Hstar.
Qed.

Lemma promoted_name_wildcard_only (v : string) :
  promoted_name [PName "*"] v = Some v.
Proof.
  rewrite promoted_name_wildcard; [| by intros s [= ->]%list_elem_of_singleton].
  reflexivity.
Qed.

Lemma promoted_name_ext (l l' : list promote) (v : string) :
  (∀ s, PName s ∈ l ↔ PName s ∈ l') →
  last_alias l v = last_alias l' v →
  promoted_name l v = promoted_name l' v.
Proof.
  intros Hin Hlast. unfold promoted_name. rewrite Hlast.
  rewrite (bool_decide_ext _ (v ≠ "*" ∧ PName v ∈ l')) by (by rewrite Hin).
  by rewrite (bool_decide_ext (PName "*" ∈ l) (PName "*" ∈ l')) by apply Hin.
Qed.


(** ** The wiring computed by [configure] *)

Section Wiring.

Context {val : Type} `{Numeric val}.
Context (names : VariableInfo).
Context (convert_units : val → string → string → val).
Context (format_val : val → string).

Local Abbreviation THRUST := (Dynamic_Mission_THRUST names).
Local Abbreviation THRUST_MAX := (Dynamic_Mission_THRUST_MAX names).
Local Abbreviation RPM := (Dynamic_Mission_RPM names).
Local Abbreviation wire' := (wire names convert_units format_val).

Implicit Types (sos gis gos pis : gset string).
Implicit Types (inputs : AviaryValues (val := val)).

(** Without a fixed RPM and without a gearbox, only the thrust outputs of the
    shaft power model are renamed. *)
Lemma wire_plain shp sos pis inputs n :
  Aircraft_Engine_FIXED_RPM inputs = None →
  wire' shp sos None pis inputs n =
  Py.Ok {| shp_inputs := [PName "*"];
           shp_outputs := shp_thrust_outputs names sos [PName "*"];
           w_gearbox := None;
           propeller_inputs := [PName "*"];
           propeller_outputs :=
             [PName "*"; PAlias THRUST "propeller_thrust";
              PAlias THRUST_MAX "propeller_thrust_max"];
           fixed_rpm_nn := None;
           fixed_rpm_source_promotes := [];
           warnings := [] |}.
Proof. intros Hrpm. unfold wire. simpl. rewrite Hrpm. reflexivity. Qed.

(** Without a fixed RPM, a gearbox makes [configure] call the list
    [shp_outputs]. *)
Lemma wire_gearbox_no_fixed_rpm shp sos gis gos pis inputs n :
  Aircraft_Engine_FIXED_RPM inputs = None →
  wire' shp sos (Some (gis, gos)) pis inputs n =
  Py.Raise (Py.TypeError "'list' object is not callable").
Proof.
  intros Hrpm. unfold wire. rewrite Hrpm. cbn [fmap option_fmap option_map].
  destruct (shp_to_gearbox names sos gis _ _) as [so gi]. reflexivity.
Qed.

(** With a fixed RPM and no gearbox. *)
Lemma wire_fixed_rpm shp sos pis inputs n entry :
  Aircraft_Engine_FIXED_RPM inputs = Some entry →
  wire' shp sos None pis inputs n =
  Py.Ok {| shp_inputs := [PName "*"];
           shp_outputs :=
             shp_thrust_outputs names sos [PName "*"]
             ++ (if decide (RPM ∈ sos)
                 then [PAlias RPM ("AUTO_OVERRIDE:" +:+ RPM)] else []);
           w_gearbox := None;
           propeller_inputs := [PName "*"];
           propeller_outputs :=
             [PName "*"; PAlias THRUST "propeller_thrust";
              PAlias THRUST_MAX "propeller_thrust_max"];
           fixed_rpm_nn :=
             Some ((λ x, fmul x (get_val_FIXED_RPM convert_units entry "rpm"))
                     <$> np_ones n);
           fixed_rpm_source_promotes := [PName "*"];
           warnings :=
             if decide (RPM ∈ sos)
             then if bool_decide
                       (verbosity_level BRIEF
                        ≤ verbosity_level (Settings_VERBOSITY inputs))%Z
                  then ["Overriding RPM value outputted by EngineModel"
                        +:+ shp +:+ " with fixed RPM of "
                        +:+ format_val
                              (get_val_FIXED_RPM convert_units entry "rpm")]
                  else []
             else [] |}.
Proof.
  intros Hrpm. unfold wire. simpl. rewrite Hrpm.
  destruct (decide (RPM ∈ sos)); simpl; [done |]. by rewrite app_nil_r.
Qed.

(** With a fixed RPM and a gearbox. *)
Lemma wire_gearbox_fixed_rpm shp sos gis gos pis inputs n entry :
  Aircraft_Engine_FIXED_RPM inputs = Some entry →
  let r := shp_to_gearbox names sos gis
             (shp_thrust_outputs names sos [PName "*"]) [PName "*"] in
  wire' shp sos (Some (gis, gos)) pis inputs n =
  Py.Ok {| shp_inputs := [PName "*"];
           shp_outputs :=
             r.1 ++ (if decide (RPM ∈ sos)
                     then [PAlias RPM ("AUTO_OVERRIDE:" +:+ RPM)] else []);
           w_gearbox :=
             Some (r.2 ++ [PAlias (RPM +:+ "_in") "fixed_rpm"],
                   gearbox_to_propeller pis gos [PName "*"]);
           propeller_inputs := [PName "*"];
           propeller_outputs :=
             [PName "*"; PAlias THRUST "propeller_thrust";
              PAlias THRUST_MAX "propeller_thrust_max"];
           fixed_rpm_nn :=
             Some ((λ x, fmul x (get_val_FIXED_RPM convert_units entry "rpm"))
                     <$> np_ones n);
           fixed_rpm_source_promotes := [PAlias RPM "fixed_rpm"];
           warnings :=
             if decide (RPM ∈ sos)
             then if bool_decide
                       (verbosity_level BRIEF
                        ≤ verbosity_level (Settings_VERBOSITY inputs))%Z
                  then ["Overriding RPM value outputted by EngineModel"
                        +:+ shp +:+ " with fixed RPM of "
                        +:+ format_val
                              (get_val_FIXED_RPM convert_units entry "rpm")]
                  else []
             else [] |}.
Proof.
  intros Hrpm r. unfold wire. rewrite Hrpm. cbn [fmap option_fmap option_map].
  fold r. destruct r as [so gi]. simpl.
  destruct (decide (RPM ∈ sos)); simpl; [done |]. by rewrite app_nil_r.
Qed.

(** *** The thrust outputs of the shaft power model *)

Lemma elem_of_shp_thrust_outputs sos so p :
  p ∈ shp_thrust_outputs names sos so ↔
  p ∈ so
  ∨ (THRUST ∈ sos ∧ p = PAlias THRUST "turboshaft_thrust")
  ∨ (THRUST_MAX ∈ sos ∧ p = PAlias THRUST_MAX "turboshaft_thrust_max").
Proof.
  unfold shp_thrust_outputs.
  destruct (decide (THRUST ∈ sos)) as [Ht|Ht],
    (decide (THRUST_MAX ∈ sos)) as [Hm|Hm];
    rewrite ?elem_of_app, ?list_elem_of_singleton; tauto.
Qed.


(** *** The loop from the shaft power model to the gearbox *)

Lemma shp_to_gearbox_var_cases sos gis so gi var :
  shp_to_gearbox_var names sos gis (so, gi) var =
  if decide (var ∈ sos ∧ var ≠ RPM ∧ var ∈ gis)
  then (so ++ [PAlias var (var +:+ "_gearbox")],
        gi ++ [PAlias var (var +:+ "_gearbox")])
  else if decide (var ∈ sos ∧ var ≠ RPM ∧ var +:+ "_in" ∈ gis)
       then (so ++ [PAlias var (var +:+ "_gearbox")],
             gi ++ [PAlias (var +:+ "_in") (var +:+ "_gearbox")])
       else (so, gi).
Proof.
  unfold shp_to_gearbox_var.
  destruct (decide (var ∈ sos)) as [Hs|Hs], (decide (var ≠ RPM)) as [Hr|Hr],
    (decide (var ∈ gis)) as [Hg|Hg],
    (decide (var +:+ "_in" ∈ gis)) as [Hi|Hi];
    rewrite ?(bool_decide_eq_true_2 _ Hs), ?(bool_decide_eq_false_2 _ Hs),
      ?(bool_decide_eq_true_2 _ Hr), ?(bool_decide_eq_false_2 _ Hr),
      ?(bool_decide_eq_true_2 _ Hg), ?(bool_decide_eq_false_2 _ Hg),
      ?(bool_decide_eq_true_2 _ Hi), ?(bool_decide_eq_false_2 _ Hi);
    simpl; repeat case_decide; try done; tauto.
Qed.

Local Arguments shp_to_gearbox_var : simpl never.

Lemma elem_of_shp_to_gearbox_1 sos gis vars so gi p :
  p ∈ (foldl (shp_to_gearbox_var names sos gis) (so, gi) vars).1 ↔
  p ∈ so
  ∨ ∃ var, var ∈ vars ∧ var ∈ sos ∧ var ≠ RPM
           ∧ (var ∈ gis ∨ var +:+ "_in" ∈ gis)
           ∧ p = PAlias var (var +:+ "_gearbox").
Proof.
  revert so gi. induction vars as [|a vars IH]; intros so gi; simpl.
  - split; [by left | intros [? | (? & ?%elem_of_nil & _)]; done].
  - rewrite shp_to_gearbox_var_cases.
    repeat case_decide; rewrite IH, ?elem_of_app, ?list_elem_of_singleton;
      setoid_rewrite elem_of_cons; naive_solver.
Qed.

Lemma elem_of_shp_to_gearbox_2 sos gis vars so gi p :
  p ∈ (foldl (shp_to_gearbox_var names sos gis) (so, gi) vars).2 ↔
  p ∈ gi
  ∨ ∃ var, var ∈ vars ∧ var ∈ sos ∧ var ≠ RPM
           ∧ ((var ∈ gis ∧ p = PAlias var (var +:+ "_gearbox"))
              ∨ ((var ∉ gis) ∧ var +:+ "_in" ∈ gis
                 ∧ p = PAlias (var +:+ "_in") (var +:+ "_gearbox"))).
Proof.
  revert so gi. induction vars as [|a vars IH]; intros so gi; simpl.
  - split; [by left | intros [? | (? & ?%elem_of_nil & _)]; done].
  - rewrite shp_to_gearbox_var_cases.
    repeat case_decide; rewrite IH, ?elem_of_app, ?list_elem_of_singleton;
      setoid_rewrite elem_of_cons; naive_solver.
Qed.

Lemma last_alias_shp_to_gearbox sos gis vars so gi v :
  last_alias (foldl (shp_to_gearbox_var names sos gis) (so, gi) vars).1 v =
  if decide (v ∈ vars ∧ v ∈ sos ∧ v ≠ RPM ∧ (v ∈ gis ∨ v +:+ "_in" ∈ gis))
  then Some (v +:+ "_gearbox")
  else last_alias so v.
Proof.
  revert so gi. induction vars as [|a vars IH]; intros so gi; simpl.
  - done.
  - rewrite shp_to_gearbox_var_cases.
    repeat case_decide; rewrite IH, ?last_alias_snoc;
      repeat case_decide; try done; try congruence;
      exfalso; rewrite ?elem_of_cons in *; naive_solver.
Qed.

(** *** The loop from the gearbox to the propeller *)

Lemma elem_of_gearbox_to_propeller pis gos go p :
  p ∈ gearbox_to_propeller pis gos go ↔
  p ∈ go
  ∨ ∃ var, var ∈ pis ∧ var +:+ "_out" ∈ gos
           ∧ p = PAlias (var +:+ "_out") var.
Proof.
  unfold gearbox_to_propeller.
  assert (∀ vars go,
    p ∈ foldl (λ gearbox_outputs var,
        if bool_decide (var +:+ "_out" ∈ gos) && bool_decide (var ∈ pis)
        then gearbox_outputs ++ [PAlias (var +:+ "_out") var]
        else gearbox_outputs) go vars ↔
    p ∈ go
    ∨ ∃ var, var ∈ vars ∧ var ∈ pis ∧ var +:+ "_out" ∈ gos
             ∧ p = PAlias (var +:+ "_out") var) as Hfold.
  { clear go. induction vars as [|a vars IH]; intros go; simpl.
    - split; [by left | intros [? | (? & ?%elem_of_nil & _)]; done].
    - rewrite IH. setoid_rewrite elem_of_cons.
      destruct (decide (a +:+ "_out" ∈ gos)) as [Ho|Ho],
        (decide (a ∈ pis)) as [Hp|Hp];
        rewrite ?(bool_decide_eq_true_2 _ Ho), ?(bool_decide_eq_false_2 _ Ho),
          ?(bool_decide_eq_true_2 _ Hp), ?(bool_decide_eq_false_2 _ Hp); simpl;
        rewrite ?elem_of_app, ?list_elem_of_singleton; naive_solver. }
  rewrite Hfold. setoid_rewrite elem_of_elements. naive_solver.
Qed.


(** *** String entries of the lists *)











(** Whatever the manifests, a gearbox without a fixed RPM stops the wiring
    at the call of the list [shp_outputs]. *)
Lemma wire_gearbox_raises shp sos gis gos pis verbosity n :
  wire' shp sos (Some (gis, gos)) pis
    {| Aircraft_Engine_FIXED_RPM := None; Settings_VERBOSITY := verbosity |} n
  = Py.Raise (Py.TypeError "'list' object is not callable").
Proof. by apply wire_gearbox_no_fixed_rpm. Qed.

End Wiring.

(** ** The groups built by [TurbopropModel] and [TurbopropMission.setup] *)

Section Construction.

Context {val : Type} `{Numeric val}.
Context (names : VariableInfo).
Context (EngineDeck_methods :
           string → option (AviaryValues (val := val))
           → option (gmap string (list val * string))
           → list string → BuildMethods (val := val)).
Context (GearboxBuilder_methods : string → bool → BuildMethods (val := val)).
Context (PropellerPerformance :
           AviaryValues (val := val) → nat → gmap string string → System val).

Local Abbreviation THRUST := (Dynamic_Mission_THRUST names).
Local Abbreviation THRUST_MAX := (Dynamic_Mission_THRUST_MAX names).
Local Abbreviation SHAFT_POWER := (Dynamic_Mission_SHAFT_POWER names).
Local Abbreviation SHAFT_POWER_MAX := (Dynamic_Mission_SHAFT_POWER_MAX names).
Local Abbreviation init :=
  (TurbopropModel_init EngineDeck_methods GearboxBuilder_methods).
Local Abbreviation propeller_group' :=
  (propeller_group names PropellerPerformance).
Local Abbreviation setup' := (setup names PropellerPerformance).

Implicit Types (o : TurbopropMissionOptions (val := val)).
Implicit Types (self : TurbopropModel (val := val)).
Implicit Types (aviary_inputs : AviaryValues (val := val)).
Implicit Types (shp prop gb : option (SubsystemBuilder (val := val))).

(** *** Pre-mission and post-mission groups *)

(** Every subsystem that [build_pre_mission] attaches is promoted with
    ['*'] alone. *)
Lemma build_pre_mission_promotes self aviary_inputs kwargs g :
  TurbopropModel_build_pre_mission self aviary_inputs kwargs = Py.Ok g →
  Forall (λ s, promotes_any s = [PName "*"]
               ∧ promotes_inputs s = [] ∧ promotes_outputs s = []) g.
Proof.
  unfold TurbopropModel_build_pre_mission, add_subsystem.
  destruct (shaft_power_model self) as [s|]; [| discriminate].
  destruct (decide (builder_class s = EngineDeckClass)),
    (build_pre_mission s aviary_inputs kwargs),
    (gearbox_model self) as [b|]; try discriminate; simpl;
    destruct (build_pre_mission b aviary_inputs kwargs),
      (propeller_model self) as [p|];
    try destruct (build_pre_mission p aviary_inputs kwargs); simpl;
    intros [= <-]; repeat (apply Forall_app; split);
    repeat constructor.
Qed.

(** A stage whose [build_post_mission] returns a system makes
    [build_post_mission] of the model raise: [add_subsystem] is given a
    keyword it does not have. *)
Lemma build_post_mission_raises self aviary_inputs kwargs
    (shp : SubsystemBuilder (val := val)) s :
  shaft_power_model self = Some shp →
  build_post_mission shp aviary_inputs kwargs = Some s →
  TurbopropModel_build_post_mission self aviary_inputs kwargs =
  Py.Raise (Py.TypeError
    "add_subsystem() got an unexpected keyword argument 'aviary_options'").
Proof.
  intros Hshp Hpost. unfold TurbopropModel_build_post_mission.
  rewrite Hshp. simpl. by rewrite Hpost.
Qed.

(** *** The gearbox of a [TurbopropModel] *)

(** C10. The constructor of [TurbopropModel] never leaves the gearbox absent:
    a missing [gearbox_model] is replaced by
    [GearboxBuilder(name + '_gearbox', include_constraints=True)], a given
    one is kept, so the per-node group built by [build_mission] always has
    [has_gearbox]; a per-node group is without gearbox exactly when its
    [gearbox_model] option is [None]. *)
Theorem gearbox_never_absent name options data shp prop gb
    num_nodes aviary_inputs kwargs :
  let self := init name options data shp prop gb in
  let o := TurbopropModel_build_mission self num_nodes aviary_inputs kwargs in
  is_Some (gearbox_model self)
  ∧ (gb = None →
     gearbox_model self
     = Some (GearboxBuilder GearboxBuilder_methods (name +:+ "_gearbox") true))
  ∧ (∀ b, gb = Some b → gearbox_model self = Some b)
  ∧ opt_gearbox_model o = gearbox_model self
  ∧ has_gearbox o = true
  ∧ (∀ o', has_gearbox o' = false ↔ opt_gearbox_model o' = None).
Proof.
  intros self o. subst self o. split_and!.
  - destruct gb; simpl; eauto.
  - by intros ->.
  - by intros b ->.
  - done.
  - by destruct gb.
  - intros o'. unfold has_gearbox. by destruct (opt_gearbox_model o').
Qed.

(** *** The propeller group *)

Lemma propeller_group_user o (p : SubsystemBuilder (val := val)) s :
  opt_propeller_model o = Some p →
  build_mission p (opt_num_nodes o) (opt_aviary_inputs o)
    (stage_kwargs (opt_kwargs o) (Some p)) = Some s →
  propeller_group' o =
  Py.Ok (name p,
         [mkSub (name p +:+ "_base") s [] [PName "*"] [PName THRUST];
          mkSub (name p +:+ "_max") s []
            [PName "*"; PAlias SHAFT_POWER SHAFT_POWER_MAX]
            [PAlias THRUST THRUST_MAX]]).
Proof.
  intros Hp Hs. unfold propeller_group. rewrite Hp. simpl in Hs |- *.
  by rewrite !Hs.
Qed.

Lemma propeller_group_builtin o :
  opt_propeller_model o = None →
  let pp := PropellerPerformance (opt_aviary_inputs o) (opt_num_nodes o)
              (default ∅ (opt_kwargs o !! "hamilton_standard")) in
  propeller_group' o =
  Py.Ok ("propeller_model",
         [mkSub "propeller_model_base" pp [PName "*"] [] [];
          mkSub "propeller_model_max" pp []
            ((PName <$> prop_inputs names)
             ++ [PAlias SHAFT_POWER SHAFT_POWER_MAX])
            [PAlias THRUST THRUST_MAX]]).
Proof. intros Hp pp. unfold propeller_group. by rewrite Hp. Qed.


Lemma promoted_name_builtin_max_power :
  SHAFT_POWER ∉ prop_inputs names →
  promoted_name ((PName <$> prop_inputs names)
                 ++ [PAlias SHAFT_POWER SHAFT_POWER_MAX]) SHAFT_POWER
  = Some SHAFT_POWER_MAX.
Proof.
  intros Hlisted. unfold promoted_name. rewrite bool_decide_eq_false_2.
  - by rewrite last_alias_snoc_eq.
  - intros [_ [Hin | [=]%list_elem_of_singleton]%elem_of_app].
    apply Hlisted. by apply list_elem_of_fmap in Hin as (x & [= ->] & Hx).
Qed.



(** *** The thrust adders *)

Lemma propeller_group_ok o : ∃ pg, propeller_group' o = Py.Ok pg.
Proof.
  destruct (opt_propeller_model o) as [p|] eqn:Hp.
  - destruct (build_mission p (opt_num_nodes o) (opt_aviary_inputs o)
                (stage_kwargs (opt_kwargs o) (Some p))) as [s|] eqn:Hs.
    + eexists. by apply propeller_group_user.
    + unfold propeller_group. rewrite Hp. simpl in Hs |- *. rewrite Hs.
      by eexists.
  - eexists. by apply propeller_group_builtin.
Qed.

Lemma setup_adders o :
  is_Some (opt_shaft_power_model o) →
  ∃ g, setup' o
       = Py.Ok (g ++ [mkSub "thrust_adder" (thrust_adder (opt_num_nodes o))
                        [] [PName "*"] [PAlias "turboprop_thrust" THRUST];
                      mkSub "max_thrust_adder"
                        (max_thrust_adder (opt_num_nodes o))
                        [] [PName "*"]
                        [PAlias "turboprop_thrust_max" THRUST_MAX]]).
Proof.
  intros [b Hb]. destruct (propeller_group_ok o) as [pg Hpg].
  unfold setup. rewrite Hb, Hpg. unfold add_subsystem.
  cbn [Py.getattr mbind result_bind Py.bind mret result_ret].
  eexists. by rewrite <- (assoc_L (++)).
Qed.

(** C3. The two adders compute [turboshaft_thrust + propeller_thrust] and
    [turboshaft_thrust_max + propeller_thrust_max] element by element over
    the [n] nodes; an operand that nothing is connected to has the value
    [zeros(n)]; they are the last two subsystems that [setup] attaches, with
    their results promoted as the thrust and the maximum thrust of the
    group. *)
Theorem thrust_adders_sum n (connected : gmap string (list val)) :
  (∀ x a, connected !! x = Some a → length a = n) →
  let value x := default (replicate n fzero) (connected !! x) in
  let total :=
    zip_with fadd (value "turboshaft_thrust") (value "propeller_thrust") in
  let total_max :=
    zip_with fadd (value "turboshaft_thrust_max")
      (value "propeller_thrust_max") in
  compute (thrust_adder n) connected = Some ("turboprop_thrust", total)
  ∧ compute (max_thrust_adder n) connected
    = Some ("turboprop_thrust_max", total_max)
  ∧ length total = n ∧ length total_max = n
  ∧ (∀ i, i < n →
       ∃ a b, value "turboshaft_thrust" !! i = Some a
              ∧ value "propeller_thrust" !! i = Some b
              ∧ total !! i = Some (fadd a b))
  ∧ (∀ i, i < n →
       ∃ a b, value "turboshaft_thrust_max" !! i = Some a
              ∧ value "propeller_thrust_max" !! i = Some b
              ∧ total_max !! i = Some (fadd a b))
  ∧ (∀ o, is_Some (opt_shaft_power_model o) → opt_num_nodes o = n →
       ∃ g, setup' o
            = Py.Ok (g ++ [mkSub "thrust_adder" (thrust_adder n)
                             [] [PName "*"] [PAlias "turboprop_thrust" THRUST];
                           mkSub "max_thrust_adder" (max_thrust_adder n)
                             [] [PName "*"]
                             [PAlias "turboprop_thrust_max" THRUST_MAX]])).
Proof.
  intros Hlen value total total_max.
  assert (∀ x, length (value x) = n) as Hvalue.
  { intros x. unfold value. destruct (connected !! x) as [a|] eqn:Hx; simpl.
    - by eapply Hlen.
    - apply length_replicate. }
  assert (∀ x y i, i < n →
            ∃ a b, value x !! i = Some a ∧ value y !! i = Some b
                   ∧ zip_with fadd (value x) (value y) !! i = Some (fadd a b))
    as Hsum.
  { intros x y i Hi.
    destruct (lookup_lt_is_Some_2 (value x) i) as [a Ha];
      [by rewrite Hvalue |].
    destruct (lookup_lt_is_Some_2 (value y) i) as [b Hb];
      [by rewrite Hvalue |].
    exists a, b. split_and!; [done | done |].
    rewrite lookup_zip_with. by rewrite Ha, Hb. }
  split_and!.
  - unfold compute, thrust_adder, total, value, np_zeros. simpl.
    unfold operand. simpl.
    by destruct (connected !! "turboshaft_thrust"),
      (connected !! "propeller_thrust").
  - unfold compute, max_thrust_adder, total_max, value, np_zeros. simpl.
    unfold operand. simpl.
    by destruct (connected !! "turboshaft_thrust_max"),
      (connected !! "propeller_thrust_max").
  - unfold total. rewrite length_zip_with, !Hvalue. lia.
  - unfold total_max. rewrite length_zip_with, !Hvalue. lia.
  - intros i Hi. by apply Hsum.
  - intros i Hi. by apply Hsum.
  - intros o Hshp <-. by apply setup_adders.
Qed.

End Construction.

(** ** The defect of the no-override gearbox path *)

(** C1. With a gearbox and no fixed RPM, [configure] does not connect the RPM
    output of the shaft power model to the gearbox: where the other blocks
    append a rename to [shp_outputs] and [gearbox_inputs], this one calls the
    two lists, so the wiring stops with a [TypeError] and nothing is
    promoted. Shown on the scenario of a turboshaft producing RPM with a
    gearbox taking [rpm_in], and for every wiring with a gearbox and no fixed
    RPM. *)
Theorem gearbox_rpm_connection_raises :
  Scenario.run
    (Scenario.mission Scenario.turboshaft (Some Scenario.gearbox) None BRIEF 2)
  = Py.Raise (Py.TypeError "'list' object is not callable")
  ∧ ∀ (val : Type) (N : Numeric val) names convert_units format_val
      shp sos gis gos pis verbosity n,
      wire (val := val) names convert_units format_val shp sos
        (Some (gis, gos)) pis
        {| Aircraft_Engine_FIXED_RPM := None;
           Settings_VERBOSITY := verbosity |} n
      = Py.Raise (Py.TypeError "'list' object is not callable").
Proof.
  split; [by vm_compute |]. intros. apply wire_gearbox_raises.
Qed.

(** C6. With a gearbox, no fixed RPM and a power source without RPM output,
    the per-node group is not built, but the error is the [TypeError] of
    calling a list, the same one raised when the power source does produce
    RPM: it names neither the stage nor the port. *)
Theorem missing_rpm_raises_type_error :
  let o := Scenario.mission Scenario.motor (Some Scenario.gearbox) None BRIEF 2
  in
  ("rpm" ∉ prom_name_set ["shaft_power"; "shaft_power_max"])
  ∧ Scenario.run o = Py.Raise (Py.TypeError "'list' object is not callable")
  ∧ Scenario.run o
    = Scenario.run
        (Scenario.mission Scenario.turboshaft (Some Scenario.gearbox)
           None BRIEF 2).
Proof. by vm_compute. Qed.

(** C5. The post-mission group does not pass the ports of a stage through:
    [build_post_mission] attaches a stage without any promotion and with a
    keyword [aviary_options] that [add_subsystem] does not take, so it raises
    as soon as a stage returns a system; [build_pre_mission], on the same
    model, attaches each stage with [promotes=['*']]. *)
Theorem post_mission_ports_not_promoted :
  TurbopropModel_build_post_mission Scenario.model
    (Scenario.inputs None BRIEF) ∅
  = Py.Raise (Py.TypeError
      "add_subsystem() got an unexpected keyword argument 'aviary_options'")
  ∧ TurbopropModel_build_pre_mission Scenario.model
      (Scenario.inputs None BRIEF) ∅
    = Py.Ok
        [mkSub "turboshaft"
           (Stage "turboshaft" ["throttle"]
              ["thrust"; "thrust_max"; "rpm"; "shaft_power";
               "shaft_power_max"])
           [PName "*"] [] [];
         mkSub "gearbox"
           (Stage "gearbox" ["shaft_power_in"; "rpm_in"]
              ["shaft_power_out"; "rpm_out"])
           [PName "*"] [] [];
         mkSub "propeller"
           (Stage "propeller" ["shaft_power"; "rpm"; "mach"] ["thrust"])
           [PName "*"] [] []].
Proof. split; reflexivity. Qed.

(** ** Instances on the scenario *)






Lemma thrust_adders_sum_witness :
  compute (thrust_adder 2) ({[ "turboshaft_thrust" := [3; 4]%Z ]})
  = Some ("turboprop_thrust", [3; 4]%Z).
Proof.
  destruct (thrust_adders_sum (val := Z) Scenario.names
              Scenario.hamilton_standard 2
              ({[ "turboshaft_thrust" := [3; 4]%Z ]})) as [Hsum _].
  - intros x a [_ <-]%lookup_singleton_Some. reflexivity.
  - rewrite Hsum. reflexivity.
Defined.

(** ** More on promotion lists *)

Lemma last_alias_None (l : list promote) (v : string) :
  (∀ new, PAlias v new ∉ l) → last_alias l v = None.
Proof.
  intros Hno. induction l as [|p l IH] using rev_ind; [done |].
  rewrite last_alias_snoc. destruct p as [s | old new].
  - apply IH. intros new Hn. apply (Hno new), elem_of_app. by left.
  - case_decide as Hold.
    + subst old. exfalso. apply (Hno new), elem_of_app. right.
      by apply list_elem_of_singleton.
    + apply IH. intros new' Hn. apply (Hno new'), elem_of_app. by left.
Qed.

Lemma last_alias_Some_elem_of (l : list promote) (v new : string) :
  last_alias l v = Some new → PAlias v new ∈ l.
Proof.
  induction l as [|p l IH] using rev_ind; [done |].
  rewrite last_alias_snoc, elem_of_app, list_elem_of_singleton.
  destruct p as [s | old new']; [by left; apply IH |].
  case_decide as Hold; [intros [= <-]; subst; by right | by left; apply IH].
Qed.

(** ** More on the wiring *)

Section WiringShape.

Context {val : Type} `{Numeric val}.
Context (names : VariableInfo).
Context (convert_units : val → string → string → val).
Context (format_val : val → string).

Local Abbreviation THRUST := (Dynamic_Mission_THRUST names).
Local Abbreviation THRUST_MAX := (Dynamic_Mission_THRUST_MAX names).
Local Abbreviation RPM := (Dynamic_Mission_RPM names).
Local Abbreviation wire' := (wire names convert_units format_val).

Implicit Types (sos gis gos pis : gset string).
Implicit Types (inputs : AviaryValues (val := val)).

Local Arguments shp_to_gearbox_var : simpl never.

(** X1. The wiring of [configure] completes exactly when there is no gearbox
    or a fixed RPM is given. *)
Theorem wire_completes_iff shp sos gb pis inputs n :
  Py.is_ok (wire' shp sos gb pis inputs n) = true
  ↔ gb = None ∨ is_Some (Aircraft_Engine_FIXED_RPM inputs).
Proof.
  destruct gb as [[gis gos]|],
    (Aircraft_Engine_FIXED_RPM inputs) as [entry|] eqn:Hrpm.
  - erewrite wire_gearbox_fixed_rpm by done. simpl. naive_solver.
  - erewrite wire_gearbox_no_fixed_rpm by done. simpl.
    split; [done | intros [[=] | [? [=]]]].
  - erewrite wire_fixed_rpm by done. simpl. naive_solver.
  - erewrite wire_plain by done. simpl. naive_solver.
Qed.

(** X2. What a completed wiring renames on the shaft power model: the thrust
    outputs, the outputs matched with a gearbox input, and the RPM output
    under a fixed RPM; in every case an output that the model has. *)
Theorem shp_outputs_renames shp sos gb pis inputs n w old new :
  wire' shp sos gb pis inputs n = Py.Ok w →
  PAlias old new ∈ shp_outputs w ↔
    old ∈ sos
    ∧ ((old = THRUST ∧ new = "turboshaft_thrust")
       ∨ (old = THRUST_MAX ∧ new = "turboshaft_thrust_max")
       ∨ (∃ gis gos, gb = Some (gis, gos) ∧ old ≠ RPM
                     ∧ (old ∈ gis ∨ old +:+ "_in" ∈ gis)
                     ∧ new = old +:+ "_gearbox")
       ∨ (old = RPM ∧ new = "AUTO_OVERRIDE:" +:+ RPM
          ∧ is_Some (Aircraft_Engine_FIXED_RPM inputs))).
Proof.
  assert (∀ p, p ∈ (if decide (RPM ∈ sos)
                    then [PAlias RPM ("AUTO_OVERRIDE:" +:+ RPM)] else [])
               ↔ RPM ∈ sos ∧ p = PAlias RPM ("AUTO_OVERRIDE:" +:+ RPM))
    as Hover.
  { intros p. case_decide; rewrite ?list_elem_of_singleton, ?elem_of_nil;
      tauto. }
  destruct gb as [[gis gos]|],
    (Aircraft_Engine_FIXED_RPM inputs) as [entry|] eqn:Hrpm.
  - erewrite wire_gearbox_fixed_rpm by done. intros [= <-]. simpl.
    unfold shp_to_gearbox.
    rewrite elem_of_app, elem_of_shp_to_gearbox_1, elem_of_shp_thrust_outputs,
      Hover, list_elem_of_singleton.
    setoid_rewrite elem_of_elements. naive_solver.
  - by erewrite wire_gearbox_no_fixed_rpm by done.
  - erewrite wire_fixed_rpm by done. intros [= <-]. simpl.
    rewrite elem_of_app, elem_of_shp_thrust_outputs, Hover,
      list_elem_of_singleton. naive_solver.
  - erewrite wire_plain by done. intros [= <-]. simpl.
    rewrite elem_of_shp_thrust_outputs, list_elem_of_singleton.
    naive_solver.
Qed.

(** X3. What a completed wiring renames on the gearbox. An input is renamed
    to the name given to the matching shaft power output, always an input the
    gearbox has, except [<RPM>_in], renamed [fixed_rpm] whether or not the
    gearbox has it; an output is renamed only as [v_out] to [v] for a
    propeller input [v], always an output the gearbox has, and every other
    gearbox output keeps its name. *)
Theorem gearbox_renames shp sos gis gos pis inputs n w gi go :
  wire' shp sos (Some (gis, gos)) pis inputs n = Py.Ok w →
  w_gearbox w = Some (gi, go) →
  (∀ old new,
     PAlias old new ∈ gi ↔
       (∃ v, v ∈ sos ∧ v ≠ RPM ∧ new = v +:+ "_gearbox"
             ∧ ((v ∈ gis ∧ old = v)
                ∨ ((v ∉ gis) ∧ v +:+ "_in" ∈ gis ∧ old = v +:+ "_in")))
       ∨ (old = RPM +:+ "_in" ∧ new = "fixed_rpm"))
  ∧ (∀ old new,
       PAlias old new ∈ gi →
       old ∈ gis ∨ (old = RPM +:+ "_in" ∧ new = "fixed_rpm"))
  ∧ (∀ old new,
       PAlias old new ∈ go ↔ new ∈ pis ∧ old ∈ gos ∧ old = new +:+ "_out")
  ∧ (∀ u, (∀ v, v ∈ pis → u ≠ v +:+ "_out") → promoted_name go u = Some u).
Proof.
  destruct (Aircraft_Engine_FIXED_RPM inputs) as [entry|] eqn:Hrpm;
    [| by erewrite wire_gearbox_no_fixed_rpm by done].
  erewrite wire_gearbox_fixed_rpm by done. intros [= <-]. simpl.
  intros [= <- <-].
  assert (∀ old new,
    PAlias old new
      ∈ (shp_to_gearbox names sos gis
           (shp_thrust_outputs names sos [PName "*"]) [PName "*"]).2
        ++ [PAlias (RPM +:+ "_in") "fixed_rpm"] ↔
    (∃ v, v ∈ sos ∧ v ≠ RPM ∧ new = v +:+ "_gearbox"
          ∧ ((v ∈ gis ∧ old = v)
             ∨ ((v ∉ gis) ∧ v +:+ "_in" ∈ gis ∧ old = v +:+ "_in")))
    ∨ (old = RPM +:+ "_in" ∧ new = "fixed_rpm")) as Hgi.
  { intros old new. unfold shp_to_gearbox.
    rewrite elem_of_app, elem_of_shp_to_gearbox_2, !list_elem_of_singleton.
    setoid_rewrite elem_of_elements. naive_solver. }
  assert (∀ old new,
    PAlias old new ∈ gearbox_to_propeller pis gos [PName "*"] ↔
    new ∈ pis ∧ old ∈ gos ∧ old = new +:+ "_out") as Hgo.
  { intros old new.
    rewrite elem_of_gearbox_to_propeller, list_elem_of_singleton.
    naive_solver. }
  split_and!; [done | | done |].
  - intros old new [(v & _ & _ & _ & [[? ->] | (_ & ? & ->)]) | ?]%Hgi; auto.
  - intros u Hu. rewrite promoted_name_wildcard.
    + rewrite last_alias_None.
      * rewrite bool_decide_eq_true_2; [done |].
        apply elem_of_gearbox_to_propeller. left.
        by apply list_elem_of_singleton.
      * intros new (Hnew & _ & ->)%Hgo. by apply (Hu new).
    + intros s [[= ->]%list_elem_of_singleton | (? & _ & _ & [=])
               ]%elem_of_gearbox_to_propeller. done.
Qed.

(** X4. The loop from the shaft power model to the gearbox renames in
    pairs: every gearbox input it renames is a gearbox input and gets the
    name given to a shaft power output, [v] or [v_in] for the output [v];
    every shaft power output it renames has a gearbox input renamed to the
    same name; the two lists grow by the same number of entries. *)
Theorem shp_to_gearbox_pairs sos gis so :
  let r := shp_to_gearbox names sos gis so [PName "*"] in
  (∀ u t, PAlias u t ∈ r.2 →
     u ∈ gis
     ∧ ∃ v, PAlias v t ∈ r.1 ∧ v ∈ sos ∧ t = v +:+ "_gearbox"
            ∧ (u = v ∨ u = v +:+ "_in"))
  ∧ (∀ p, p ∈ r.1 → p ∈ so ∨ ∃ v u t, p = PAlias v t ∧ PAlias u t ∈ r.2)
  ∧ length r.1 + 1 = length r.2 + length so.
Proof.
  intros r. subst r. unfold shp_to_gearbox. split_and!.
  - intros u t [[=]%list_elem_of_singleton
               | (v & Hv & Hs & Hr & Hc)]%elem_of_shp_to_gearbox_2.
    assert (PAlias v (v +:+ "_gearbox")
              ∈ (foldl (shp_to_gearbox_var names sos gis) (so, [PName "*"])
                   (elements sos)).1) as Hin.
    { apply elem_of_shp_to_gearbox_1. right. exists v. naive_solver. }
    destruct Hc as [[? [= -> ->]] | (? & ? & [= -> ->])]; eauto 10.
  - intros p [? | (v & Hv & Hs & Hr & Hc & ->)]%elem_of_shp_to_gearbox_1;
      [by left |].
    right. destruct (decide (v ∈ gis)) as [Hg | Hg].
    + exists v, v, (v +:+ "_gearbox"). split; [done |].
      apply elem_of_shp_to_gearbox_2. right. exists v. naive_solver.
    + exists v, (v +:+ "_in"), (v +:+ "_gearbox"). split; [done |].
      apply elem_of_shp_to_gearbox_2. right. exists v. naive_solver.
  - assert (∀ vars so gi,
      length (foldl (shp_to_gearbox_var names sos gis) (so, gi) vars).1
      + length gi
      = length (foldl (shp_to_gearbox_var names sos gis) (so, gi) vars).2
        + length so) as Hlen.
    { induction vars as [|a vars IH]; intros so' gi; simpl; [lia |].
      rewrite shp_to_gearbox_var_cases.
      repeat case_decide;
        match goal with
        | |- context [foldl _ (?a, ?b) vars] => pose proof (IH a b) as IHab
        end;
        rewrite ?length_app in IHab; simpl in IHab; lia. }
    apply (Hlen _ so [PName "*"]).
Qed.

(** X5. The order in which the set of shaft power outputs is iterated does
    not change which renames the loop registers, nor the promoted name of any
    shaft power output. *)
Theorem shp_to_gearbox_any_order sos gis so gi (vars : list string) :
  (∀ v, v ∈ vars ↔ v ∈ sos) →
  let r' := foldl (shp_to_gearbox_var names sos gis) (so, gi) vars in
  let r := shp_to_gearbox names sos gis so gi in
  (∀ p, p ∈ r'.1 ↔ p ∈ r.1)
  ∧ (∀ p, p ∈ r'.2 ↔ p ∈ r.2)
  ∧ (∀ v, promoted_name r'.1 v = promoted_name r.1 v).
Proof.
  intros Hvars r' r. subst r' r. unfold shp_to_gearbox.
  assert (∀ p, p ∈ (foldl (shp_to_gearbox_var names sos gis) (so, gi) vars).1
               ↔ p ∈ (foldl (shp_to_gearbox_var names sos gis) (so, gi)
                        (elements sos)).1) as H1.
  { intros p. rewrite !elem_of_shp_to_gearbox_1.
    setoid_rewrite elem_of_elements. by setoid_rewrite Hvars. }
  split_and!; [done | |].
  - intros p. rewrite !elem_of_shp_to_gearbox_2.
    setoid_rewrite elem_of_elements. by setoid_rewrite Hvars.
  - intros v. apply promoted_name_ext; [intros s; apply H1 |].
    rewrite !last_alias_shp_to_gearbox.
    apply decide_ext. by rewrite Hvars, elem_of_elements.
Qed.

End WiringShape.

(** ** More on the groups *)

Section Groups.

Context {val : Type} `{Numeric val}.
Context (names : VariableInfo).
Context (convert_units : val → string → string → val).
Context (format_val : val → string).
Context (EngineDeck_methods :
           string → option (AviaryValues (val := val))
           → option (gmap string (list val * string))
           → list string → BuildMethods (val := val)).
Context (GearboxBuilder_methods : string → bool → BuildMethods (val := val)).
Context (PropellerPerformance :
           AviaryValues (val := val) → nat → gmap string string → System val).

Local Abbreviation THRUST := (Dynamic_Mission_THRUST names).
Local Abbreviation THRUST_MAX := (Dynamic_Mission_THRUST_MAX names).
Local Abbreviation RPM := (Dynamic_Mission_RPM names).
Local Abbreviation SHAFT_POWER := (Dynamic_Mission_SHAFT_POWER names).
Local Abbreviation SHAFT_POWER_MAX := (Dynamic_Mission_SHAFT_POWER_MAX names).
Local Abbreviation init :=
  (TurbopropModel_init EngineDeck_methods GearboxBuilder_methods).
Local Abbreviation propeller_group' :=
  (propeller_group names PropellerPerformance).
Local Abbreviation setup' := (setup names PropellerPerformance).
Local Abbreviation configure' := (configure names convert_units format_val).
Local Abbreviation mission' :=
  (TurbopropMission names convert_units format_val PropellerPerformance).

Implicit Types (o : TurbopropMissionOptions (val := val)).
Implicit Types (self : TurbopropModel (val := val)).
Implicit Types (aviary_inputs : AviaryValues (val := val)).
Implicit Types (shp prop gb : option (SubsystemBuilder (val := val))).
Implicit Types (g : Group val).

(** X6. [build_pre_mission] raises exactly when the shaft power model or the
    gearbox model is missing, which the constructor excludes; with the
    default engine deck the pre-mission group holds only what the gearbox
    and the propeller return, each under the name of the returned system and
    promoted with ['*']. *)
Theorem build_pre_mission_defined self aviary_inputs kwargs :
  (Py.is_ok (TurbopropModel_build_pre_mission self aviary_inputs kwargs) = true
   ↔ is_Some (shaft_power_model self) ∧ is_Some (gearbox_model self))
  ∧ ∀ name options data prop gb,
      let attach (s : option (System val)) : Group val :=
        match s with
        | Some s => [mkSub (system_name s) s [PName "*"] [] []]
        | None => []
        end in
      ∃ gearbox,
        gearbox_model (init name options data None prop gb) = Some gearbox
        ∧ TurbopropModel_build_pre_mission
            (init name options data None prop gb) aviary_inputs kwargs
          = Py.Ok (attach (build_pre_mission gearbox aviary_inputs kwargs)
                   ++ attach (p ← prop;
                              build_pre_mission p aviary_inputs kwargs)).
Proof.
  split.
  - unfold TurbopropModel_build_pre_mission.
    destruct (shaft_power_model self) as [s|], (gearbox_model self) as [b|];
      simpl; try destruct (decide _); try destruct (build_pre_mission s _ _);
      simpl; split; try done; try (by intros [[? [=]] _]);
      try (by intros [_ [? [=]]]); eauto.
  - intros name options data prop gb attach.
    unfold TurbopropModel_build_pre_mission, TurbopropModel_init. simpl.
    subst attach. unfold add_subsystem.
    destruct gb as [b|]; simpl; eexists; (split; [done |]);
      destruct prop as [p|]; simpl; repeat case_match; simplify_eq; done.
Qed.

(** X7. [build_post_mission] never returns a group with a subsystem: it
    returns the empty group when every stage returns [None], and raises as
    soon as a stage returns a system or the shaft power or gearbox model is
    missing. *)
Theorem build_post_mission_empty_or_raises self aviary_inputs kwargs :
  (∀ g, TurbopropModel_build_post_mission self aviary_inputs kwargs = Py.Ok g
        → g = [])
  ∧ (Py.is_ok (TurbopropModel_build_post_mission self aviary_inputs kwargs)
     = true
     ↔ (∃ s, shaft_power_model self = Some s
             ∧ build_post_mission s aviary_inputs kwargs = None)
       ∧ (∃ b, gearbox_model self = Some b
               ∧ build_post_mission b aviary_inputs kwargs = None)
       ∧ (∀ p, propeller_model self = Some p →
               build_post_mission p aviary_inputs kwargs = None)).
Proof.
  unfold TurbopropModel_build_post_mission.
  destruct (shaft_power_model self) as [s|]; simpl.
  2: { split; [done |]. split; [done | by intros [[? [[=] _]] _]]. }
  destruct (build_post_mission s aviary_inputs kwargs) eqn:Hs; simpl.
  { split; [done |]. split; [done | by intros [[? [[= <-] ?]] _]; congruence]. }
  destruct (gearbox_model self) as [b|]; simpl.
  2: { split; [done |]. split; [done | by intros (_ & [? [[=] _]] & _)]. }
  destruct (build_post_mission b aviary_inputs kwargs) eqn:Hb; simpl.
  { split; [done |].
    split; [done | by intros (_ & [? [[= <-] ?]] & _); congruence]. }
  destruct (propeller_model self) as [p|]; simpl.
  2: { split; [by intros g [= <-] |]. split; [| done]. intros _.
       split_and!; [by exists s | by exists b | done]. }
  destruct (build_post_mission p aviary_inputs kwargs) eqn:Hp; simpl.
  { split; [done |]. split; [done |]. intros (_ & _ & Hnone).
    specialize (Hnone p eq_refl). congruence. }
  split; [by intros g [= <-] |]. split; [| done]. intros _.
  split_and!; [by exists s | by exists b | by intros ? [= <-]].
Qed.

(** *** The per-node group *)


Lemma configure_gearbox_no_fixed_rpm o g :
  is_Some (opt_gearbox_model o) →
  Aircraft_Engine_FIXED_RPM (opt_aviary_inputs o) = None →
  configure' o g = Py.Raise (Py.TypeError "'list' object is not callable")
  ∨ ∃ attr,
      configure' o g
      = Py.Raise (Py.AttributeError
                    ("'NoneType' object has no attribute '" +:+ attr +:+ "'")).
Proof.
  intros [b Hb] Hrpm. unfold configure, has_gearbox. rewrite Hb.
  destruct (opt_shaft_power_model o) as [s|]; simpl; [| right; by eexists].
  destruct (_get_subsystem g (name s)) as [ss|]; simpl;
    [| right; by eexists].
  destruct (_get_subsystem g (name b)) as [sb|]; simpl;
    [| right; by eexists].
  destruct (_get_subsystem g _) as [sp|]; simpl; [| right; by eexists].
  left. by erewrite wire_gearbox_no_fixed_rpm by done.
Qed.

Lemma mission_gearbox_no_fixed_rpm o :
  is_Some (opt_gearbox_model o) →
  Aircraft_Engine_FIXED_RPM (opt_aviary_inputs o) = None →
  mission' o = Py.Raise (Py.TypeError "'list' object is not callable")
  ∨ ∃ attr,
      mission' o
      = Py.Raise (Py.AttributeError
                    ("'NoneType' object has no attribute '" +:+ attr +:+ "'")).
Proof.
  intros Hgb Hrpm. unfold TurbopropMission.
  destruct (setup' o) as [g | e] eqn:Hsetup; simpl.
  - by apply configure_gearbox_no_fixed_rpm.
  - right. unfold setup in Hsetup.
    destruct (opt_shaft_power_model o) as [s|]; simpl in Hsetup.
    + destruct (propeller_group_ok names PropellerPerformance o) as [pg Hpg].
      by rewrite Hpg in Hsetup.
    + injection Hsetup as <-. by eexists.
Qed.

(** X8. A model built by the constructor cannot build its per-node group
    unless a fixed RPM is given: the constructor always supplies a gearbox,
    and with a gearbox and no fixed RPM the group stops with the [TypeError]
    of calling a list, or earlier with an [AttributeError] on a stage that
    built no system. *)
Theorem constructed_mission_needs_fixed_rpm name options data shp prop gb
    num_nodes aviary_inputs kwargs :
  Aircraft_Engine_FIXED_RPM aviary_inputs = None →
  let o := TurbopropModel_build_mission (init name options data shp prop gb)
             num_nodes aviary_inputs kwargs in
  Py.is_ok (mission' o) = false
  ∧ (mission' o = Py.Raise (Py.TypeError "'list' object is not callable")
     ∨ ∃ attr,
         mission' o
         = Py.Raise (Py.AttributeError
                       ("'NoneType' object has no attribute '"
                        +:+ attr +:+ "'"))).
Proof.
  intros Hrpm o.
  assert (is_Some (opt_gearbox_model o)) as Hgb.
  { subst o. destruct gb; simpl; eauto. }
  destruct (mission_gearbox_no_fixed_rpm o Hgb Hrpm) as [Hr | [attr Hr]];
    rewrite Hr; split; eauto.
Qed.

(** *** What [configure] changes in the group *)







(** *** When the per-node group completes *)

Lemma get_subsystem_is_Some (g : Group val) n :
  is_Some (_get_subsystem g n) ↔ n ∈ sub_name <$> g.
Proof.
  unfold _get_subsystem. induction g as [|a g IH]; simpl.
  - split; [by intros [? [=]] | by intros ?%elem_of_nil].
  - rewrite elem_of_cons. case_bool_decide as Ha.
    + split; [by left | by eexists].
    + rewrite IH. split; [by right | intros [? | ?]; [congruence | done]].
Qed.

Lemma get_subsystem_None (g : Group val) n :
  _get_subsystem g n = None ↔ n ∉ sub_name <$> g.
Proof.
  rewrite <- get_subsystem_is_Some, eq_None_not_Some. done.
Qed.

Lemma configure_no_shp_subsystem o g (sp : SubsystemBuilder (val := val)) :
  opt_shaft_power_model o = Some sp →
  name sp ∉ sub_name <$> g →
  configure' o g
  = Py.Raise (Py.AttributeError
                "'NoneType' object has no attribute 'list_outputs'").
Proof.
  intros Hshp Hno%get_subsystem_None. unfold configure.
  rewrite Hshp. simpl. by rewrite Hno.
Qed.

Lemma configure_no_gearbox_subsystem o g
    (sp b : SubsystemBuilder (val := val)) :
  opt_shaft_power_model o = Some sp →
  name sp ∈ sub_name <$> g →
  opt_gearbox_model o = Some b →
  name b ∉ sub_name <$> g →
  configure' o g
  = Py.Raise (Py.AttributeError
                "'NoneType' object has no attribute 'list_inputs'").
Proof.
  intros Hshp [s Hs]%get_subsystem_is_Some Hb Hno%get_subsystem_None.
  unfold configure, has_gearbox. rewrite Hshp, Hb. simpl.
  rewrite Hs. simpl. by rewrite Hno.
Qed.

Lemma configure_is_ok o g :
  Py.is_ok (configure' o g) = true
  ↔ (∃ sp, opt_shaft_power_model o = Some sp
            ∧ name sp ∈ sub_name <$> g)
    ∧ default "propeller_model" (name <$> opt_propeller_model o)
      ∈ sub_name <$> g
    ∧ (∀ b, opt_gearbox_model o = Some b →
            name b ∈ sub_name <$> g
            ∧ is_Some (Aircraft_Engine_FIXED_RPM (opt_aviary_inputs o))).
Proof.
  unfold configure, has_gearbox.
  destruct (opt_shaft_power_model o) as [sp|]; simpl;
    [| split; [done | by intros [(? & [=] & _) _]]].
  destruct (_get_subsystem g (name sp)) as [ss|] eqn:Hss; simpl.
  2: { apply get_subsystem_None in Hss.
       split; [done | by intros [(? & [= <-] & ?) _]]. }
  assert (name sp ∈ sub_name <$> g) as Hin.
  { apply get_subsystem_is_Some. by eexists. }
  assert (∀ n : string, default "propeller_model"
            (name <$> opt_propeller_model o) = n →
          match opt_propeller_model o with
          | Some propeller_builder => name propeller_builder
          | None => "propeller_model"
          end = n) as Hpn.
  { intros n <-. by destruct (opt_propeller_model o). }
  rewrite (Hpn _ eq_refl). clear Hpn.
  set (pn := default "propeller_model" (name <$> opt_propeller_model o)).
  destruct (opt_gearbox_model o) as [b|]; simpl.
  - destruct (_get_subsystem g (name b)) as [sb|] eqn:Hsb; simpl.
    2: { apply get_subsystem_None in Hsb.
         split; [done |]. intros (_ & _ & Hb).
         by destruct (Hb b eq_refl) as [? _]. }
    destruct (_get_subsystem g pn) as [spr|] eqn:Hsp; simpl.
    2: { apply get_subsystem_None in Hsp.
         split; [done | by intros (_ & ? & _)]. }
    assert (name b ∈ sub_name <$> g) as Hinb.
    { apply get_subsystem_is_Some. by eexists. }
    assert (pn ∈ sub_name <$> g) as Hinp.
    { apply get_subsystem_is_Some. by eexists. }
    destruct (Aircraft_Engine_FIXED_RPM (opt_aviary_inputs o)) as [entry|]
      eqn:Hrpm.
    + erewrite wire_gearbox_fixed_rpm by done. simpl.
      split; [intros _ | done].
      split_and!; [by eexists | done |]. by intros ? [= <-].
    + erewrite wire_gearbox_no_fixed_rpm by done. simpl.
      split; [done |]. intros (_ & _ & Hb).
      by destruct (Hb b eq_refl) as [_ [? [=]]].
  - destruct (_get_subsystem g pn) as [spr|] eqn:Hsp; simpl.
    2: { apply get_subsystem_None in Hsp.
         split; [done | by intros (_ & ? & _)]. }
    assert (pn ∈ sub_name <$> g) as Hinp.
    { apply get_subsystem_is_Some. by eexists. }
    destruct (Aircraft_Engine_FIXED_RPM (opt_aviary_inputs o)) as [entry|]
      eqn:Hrpm.
    + erewrite wire_fixed_rpm by done. simpl.
      split; [intros _ | done]. split_and!; [by eexists | done | done].
    + erewrite wire_plain by done. simpl.
      split; [intros _ | done]. split_and!; [by eexists | done | done].
Qed.


Lemma propeller_group_name o pg :
  propeller_group' o = Py.Ok pg →
  pg.1 = default "propeller_model" (name <$> opt_propeller_model o).
Proof.
  unfold propeller_group.
  destruct (opt_propeller_model o) as [p|]; simpl; [| by intros [= <-]].
  destruct (build_mission p _ _ _); simpl; by intros [= <-].
Qed.

Local Abbreviation built o b :=
  (build_mission b (opt_num_nodes o) (opt_aviary_inputs o)
     (stage_kwargs (opt_kwargs o) (Some b))).

Lemma setup_names o (sp : SubsystemBuilder (val := val)) :
  opt_shaft_power_model o = Some sp →
  ∃ g, setup' o = Py.Ok g
       ∧ sub_name <$> g
         = match built o sp with Some _ => [name sp] | None => [] end
           ++ ["fixed_rpm_source"]
           ++ match opt_gearbox_model o with
              | Some b => match built o b with
                          | Some _ => [name b]
                          | None => []
                          end
              | None => []
              end
           ++ [default "propeller_model" (name <$> opt_propeller_model o);
               "thrust_adder"; "max_thrust_adder"].
Proof.
  intros Hshp.
  destruct (propeller_group_ok names PropellerPerformance o) as [pg Hpg].
  pose proof (propeller_group_name o pg Hpg) as Hname.
  unfold setup. rewrite Hshp, Hpg.
  cbn [Py.getattr mbind result_bind Py.bind mret result_ret].
  eexists. split; [done |].
  unfold add_subsystem.
  destruct (built o sp); destruct (opt_gearbox_model o) as [b|];
    try destruct (built o b); simpl; by rewrite Hname.
Qed.

(** X11. When the per-node group completes, for stages whose names differ
    from each other and from the names [setup] uses itself. Without a shaft
    power model [setup] stops on [build_mission]; a shaft power model, or a
    gearbox, whose [build_mission] returns [None] is skipped by [setup] and
    then missed by [configure], which stops on [list_outputs], or
    [list_inputs]. The group completes exactly when the shaft power model
    builds a system and the gearbox, if there is one, builds a system and
    comes with a fixed RPM. *)
Theorem mission_completes_iff o :
  NoDup ((name <$> option_list (opt_shaft_power_model o))
         ++ (name <$> option_list (opt_gearbox_model o))
         ++ [default "propeller_model" (name <$> opt_propeller_model o);
             "fixed_rpm_source"; "thrust_adder"; "max_thrust_adder"]) →
  (opt_shaft_power_model o = None →
   mission' o
   = Py.Raise (Py.AttributeError
                 "'NoneType' object has no attribute 'build_mission'"))
  ∧ (∀ sp, opt_shaft_power_model o = Some sp → built o sp = None →
       mission' o
       = Py.Raise (Py.AttributeError
                     "'NoneType' object has no attribute 'list_outputs'"))
  ∧ (∀ sp b, opt_shaft_power_model o = Some sp → is_Some (built o sp) →
       opt_gearbox_model o = Some b → built o b = None →
       mission' o
       = Py.Raise (Py.AttributeError
                     "'NoneType' object has no attribute 'list_inputs'"))
  ∧ (Py.is_ok (mission' o) = true
     ↔ (∃ sp, opt_shaft_power_model o = Some sp ∧ is_Some (built o sp))
       ∧ (∀ b, opt_gearbox_model o = Some b →
            is_Some (built o b)
            ∧ is_Some (Aircraft_Engine_FIXED_RPM (opt_aviary_inputs o)))).
Proof.
  intros Hnd.
  destruct (opt_shaft_power_model o) as [sp|] eqn:Hshp.
  2: { split_and!; try done.
       - intros _. unfold TurbopropMission, setup. by rewrite Hshp.
       - unfold TurbopropMission, setup. rewrite Hshp. simpl.
         split; [done | by intros [(? & [=] & _) _]]. }
  destruct (setup_names o sp Hshp) as (g & Hsetup & Hnames).
  simpl in Hnd.
  unfold TurbopropMission. rewrite Hsetup.
  cbn [mbind result_bind Py.bind].
  apply NoDup_cons in Hnd as [Hsp Hnd].
  assert (name sp ∈ sub_name <$> g ↔ is_Some (built o sp)) as Hsp_in.
  { rewrite Hnames. destruct (built o sp) as [s|].
    - split; [by eexists | intros _; by left].
    - split; [| by intros [? [=]]]. intros Hin. exfalso. apply Hsp.
      destruct (opt_gearbox_model o) as [b|]; [destruct (built o b) |];
        set_solver. }
  assert (∀ b, opt_gearbox_model o = Some b →
               name b ∈ sub_name <$> g ↔ is_Some (built o b)) as Hgb_in.
  { intros b Hb. rewrite Hnames. rewrite Hb in Hsp, Hnd |- *.
    simpl in Hsp, Hnd.
    apply NoDup_cons in Hnd as [Hb_out _].
    destruct (built o b) as [s|].
    - split; [by eexists | intros _].
      destruct (built o sp); set_solver.
    - split; [| by intros [? [=]]]. intros Hin. exfalso.
      destruct (built o sp); set_solver. }
  split_and!; try done.
  - intros ? [= <-] Hnone.
    apply (configure_no_shp_subsystem o g sp Hshp).
    rewrite Hsp_in, Hnone. by intros [? [=]].
  - intros ? b [= <-] Hsome Hb Hnone.
    apply (configure_no_gearbox_subsystem o g sp b Hshp); [| done |].
    + by apply Hsp_in.
    + rewrite (Hgb_in b Hb), Hnone. by intros [? [=]].
  - rewrite configure_is_ok. split.
    + intros ((x & Hx & Hin) & _ & Hb).
      assert (x = sp) as -> by congruence. split.
      * exists sp. split; [done |]. by apply Hsp_in.
      * intros b Hgb. destruct (Hb b Hgb) as [Hbin ?].
        split; [by apply (Hgb_in b Hgb) | done].
    + intros ((? & [= <-] & Hin) & Hb). split_and!.
      * exists sp. split; [done |]. by apply Hsp_in.
      * rewrite Hnames. set_solver.
      * intros b Hgb. destruct (Hb b Hgb) as [Hbin ?].
        split; [by apply (Hgb_in b Hgb) | done].
Qed.

(** *** The inputs of the propeller group *)

Lemma elem_of_map {A B} (f : A → B) (l : list A) (y : B) :
  y ∈ map f l ↔ ∃ x, y = f x ∧ x ∈ l.
Proof.
  rewrite list_elem_of_In, in_map_iff.
  split; intros (x & ? & ?); exists x; by rewrite ?list_elem_of_In in *.
Qed.

Lemma has_dot_owner (owner v : string) :
  has_dot (owner +:+ "." +:+ v) = true.
Proof. induction owner as [|c owner IH]; simpl; [done |]. by case_match. Qed.

Lemma elem_of_prom_name_set (l : list string) (v : string) :
  v ∈ prom_name_set l ↔ has_dot v = false ∧ v ∈ l.
Proof.
  unfold prom_name_set. by rewrite elem_of_list_to_set, list_elem_of_filter.
Qed.

Lemma promoted_name_names (l : list string) (v : string) :
  promoted_name (PName <$> l) v = Some v
  ∨ promoted_name (PName <$> l) v = None.
Proof.
  unfold promoted_name. case_bool_decide; [by left |].
  rewrite last_alias_None.
  - case_bool_decide; [by left | by right].
  - by intros new (x & [=] & _)%list_elem_of_fmap.
Qed.

Lemma promoted_name_user_max v :
  promoted_name [PName "*"; PAlias SHAFT_POWER SHAFT_POWER_MAX] v
  = Some (if decide (v = SHAFT_POWER) then SHAFT_POWER_MAX else v).
Proof.
  case_decide as Hv.
  - subst v. apply (promoted_name_snoc_eq [PName "*"]).
    by intros ? [= ->]%list_elem_of_singleton.
  - etrans; [by apply (promoted_name_snoc_ne [PName "*"]) |].
    apply promoted_name_wildcard_only.
Qed.

(** X12. The propeller inputs that [configure] finds on the propeller group
    of [setup]: the inputs of the propeller system whose name has no dot,
    and the max-shaft-power name when the propeller takes the shaft power.
    A propeller supplied by the user whose [build_mission] returns [None]
    leaves the group without inputs. *)
Theorem propeller_group_inputs o pg v :
  propeller_group' o = Py.Ok pg →
  SHAFT_POWER ∉ prop_inputs names →
  v ∈ prom_name_set (list_inputs (GroupSys pg.2))
  ↔ has_dot v = false
    ∧ ∃ s,
        match opt_propeller_model o with
        | Some p => built o p
        | None =>
            Some (PropellerPerformance (opt_aviary_inputs o)
                    (opt_num_nodes o)
                    (default ∅ (opt_kwargs o !! "hamilton_standard")))
        end = Some s
        ∧ (v ∈ list_inputs s
           ∨ (v = SHAFT_POWER_MAX ∧ SHAFT_POWER ∈ list_inputs s)).
Proof.
  intros Hpg Hlisted. rewrite elem_of_prom_name_set.
  match goal with
  | |- _ ∧ ?B ↔ _ ∧ ?C =>
      cut (has_dot v = false → (B ↔ C));
      [intros Hc; split; intros [Hd Hx]; (split; [done | by apply Hc]) |]
  end.
  intros Hdot.
  destruct (opt_propeller_model o) as [p|] eqn:Hp.
  - destruct (built o p) as [s|] eqn:Hs.
    + rewrite (propeller_group_user names PropellerPerformance o p s Hp Hs)
        in Hpg.
      injection Hpg as <-. cbn [snd list_inputs flat_map sub_name sub_sys].
      rewrite app_nil_r, elem_of_app, !elem_of_map.
      unfold input_name. cbn [promotes_any promotes_inputs app].
      setoid_rewrite promoted_name_wildcard_only.
      setoid_rewrite promoted_name_user_max. unfold prom_name. simpl.
      split.
      * intros [(x & -> & Hx) | (x & -> & Hx)]; exists s;
          (split; [done |]); [by left |].
        case_decide; [subst x; by right | by left].
      * intros (? & [= <-] & [Hv | [-> Hsp]]).
        -- left. by exists v.
        -- right. exists SHAFT_POWER. split; [| done].
           by rewrite decide_True.
    + unfold propeller_group in Hpg. rewrite Hp in Hpg.
      simpl in Hs, Hpg. rewrite Hs in Hpg. injection Hpg as <-. simpl.
      split; [by intros ?%elem_of_nil | by intros (? & [=] & _)].
  - rewrite (propeller_group_builtin names PropellerPerformance o Hp) in Hpg.
    injection Hpg as <-. cbn [snd list_inputs flat_map sub_name sub_sys].
    set (s := PropellerPerformance _ _ _).
    rewrite app_nil_r, elem_of_app, !elem_of_map.
    unfold input_name. cbn [promotes_any promotes_inputs].
    rewrite app_nil_l, app_nil_r.
    setoid_rewrite promoted_name_wildcard_only. unfold prom_name.
    split.
    + intros [(x & -> & Hx) | (x & Hv & Hx)]; exists s;
        (split; [done |]); [by left |].
      destruct (decide (x = SHAFT_POWER)) as [-> | Hne].
      * change (promoted_name _ SHAFT_POWER)
          with (promoted_name
                  ((PName <$> prop_inputs names)
                   ++ [PAlias SHAFT_POWER SHAFT_POWER_MAX]) SHAFT_POWER)
          in Hv.
        rewrite (promoted_name_builtin_max_power names Hlisted) in Hv.
        right. by subst v.
      * change (promoted_name _ x)
          with (promoted_name
                  ((PName <$> prop_inputs names)
                   ++ [PAlias SHAFT_POWER SHAFT_POWER_MAX]) x)
          in Hv.
        rewrite promoted_name_snoc_ne in Hv by done.
        destruct (promoted_name_names (prop_inputs names) x) as [Hn | Hn];
          rewrite Hn in Hv; simpl in Hv; subst v; [by left |].
        exfalso. by rewrite has_dot_owner in Hdot.
    + intros (? & [= <-] & [Hv | [-> Hsp]]).
      * left. by exists v.
      * right. exists SHAFT_POWER. split; [| done]. symmetry.
        exact (f_equal (default _)
                 (promoted_name_builtin_max_power names Hlisted)).
Qed.

End Groups.

(** ** The data frame of the dashboard *)

Section DashboardFrame.

Import Dashboard.

Context {val : Type}.
Context (norm : list val → val).

Implicit Types (d : dict (value val)) (row : list (cell val)).
Implicit Types (names all initial : list string).
Implicit Types (driver_case : Case val) (st : Frame val).

Local Abbreviation append_values' := (append_values norm).
Local Abbreviation scalar_value' := (scalar_value norm).

Lemma getitem_is_ok {A} (d : dict A) key :
  is_ok (getitem d key) = true ↔ key ∈ keys d.
Proof.
  unfold getitem, keys. induction d as [|[k a] d IH]; simpl.
  - split; [done | by intros ?%elem_of_nil].
  - rewrite elem_of_cons. case_bool_decide as Hk; simpl in Hk |- *.
    + split; [by left | done].
    + rewrite IH. split; [by right | intros [? | ?]; [congruence | done]].
Qed.

Lemma getitem_raise {A} (d : dict A) key e :
  getitem d key = Raise e → e = KeyError key ∧ key ∉ keys d.
Proof.
  intros Hget. pose proof (getitem_is_ok d key) as Hok.
  rewrite Hget in Hok. simpl in Hok.
  split; [| intros Hin; by apply Hok in Hin].
  unfold getitem in Hget. destruct (find _ d); by simplify_eq.
Qed.

(** *** The names kept by the header loops *)

Lemma new_names_acc all initial names :
  NoDup initial →
  (∀ x, x ∈ initial → x ∉ names) →
  foldl (λ '(names, all_var_names) name,
           if bool_decide (name ∉ all_var_names)
           then (names ++ [name], all_var_names ++ [name])
           else (names, all_var_names))
    (names, all ++ names) initial
  = (names ++ filter (λ x, x ∉ all) initial,
     all ++ names ++ filter (λ x, x ∉ all) initial).
Proof.
  revert names. induction initial as [|x initial IH]; intros names Hnd Hnew.
  - simpl. by rewrite !app_nil_r.
  - apply NoDup_cons in Hnd as [Hx Hnd]. simpl.
    assert (x ∉ names) as Hxn by (apply Hnew; by left).
    rewrite filter_cons. destruct (decide (x ∈ all)) as [Hin | Hout].
    + rewrite bool_decide_eq_false_2
        by (intros Hc; apply Hc, elem_of_app; by left).
      rewrite decide_False by (by intros Hc).
      apply IH; [done |]. intros y Hy. apply Hnew. by right.
    + rewrite bool_decide_eq_true_2 by (by intros [? | ?]%elem_of_app).
      rewrite decide_True by done.
      rewrite <- (assoc_L (++) all). rewrite IH; [| done |].
      * by rewrite <- !(assoc_L (++)).
      * intros y Hy [? | ->%list_elem_of_singleton]%elem_of_app.
        -- apply (Hnew y); [by right | done].
        -- done.
Qed.

Lemma new_names_filter all initial :
  NoDup initial →
  new_names all initial
  = (filter (λ x, x ∉ all) initial, all ++ filter (λ x, x ∉ all) initial).
Proof.
  intros Hnd. unfold new_names.
  pose proof (new_names_acc all initial [] Hnd) as Hacc.
  rewrite app_nil_r in Hacc. apply Hacc. intros x _ ?%elem_of_nil. done.
Qed.

(** *** The values of a row *)

Lemma append_values_raise names d e :
  foldl (λ acc varname,
           bind acc (λ row,
           bind (getitem d varname) (λ value,
           Ok (row ++ [Value (scalar_value' value)]))))
    (Raise e) names = Raise e.
Proof. induction names as [|n names IH]; simpl; done. Qed.

Lemma append_values_cons row n names d :
  append_values' row (n :: names) d
  = bind (getitem d n) (λ value,
      append_values' (row ++ [Value (scalar_value' value)]) names d).
Proof.
  unfold append_values. simpl. destruct (getitem d n) as [v | e]; simpl.
  - done.
  - apply append_values_raise; done.
Qed.

Lemma append_values_is_ok row names d :
  is_ok (append_values' row names d) = true ↔ ∀ n, n ∈ names → n ∈ keys d.
Proof.
  revert row. induction names as [|n names IH]; intros row.
  - split; [by intros _ ? ?%elem_of_nil | done].
  - rewrite append_values_cons.
    destruct (getitem d n) as [v | e] eqn:Hget; simpl.
    + rewrite IH. assert (n ∈ keys d) as Hn.
      { apply getitem_is_ok. by rewrite Hget. }
      split.
      * intros Hall x [-> | ?]%elem_of_cons; [done | by apply Hall].
      * intros Hall x Hx. apply Hall. by right.
    + apply getitem_raise in Hget as [_ Hn].
      split; [done |]. intros Hall. exfalso. apply Hn, Hall. by left.
Qed.

Lemma append_values_raises row names d e :
  append_values' row names d = Raise e →
  ∃ key, e = KeyError key ∧ key ∈ names ∧ key ∉ keys d.
Proof.
  revert row. induction names as [|n names IH]; intros row; [done |].
  rewrite append_values_cons.
  destruct (getitem d n) as [v | e'] eqn:Hget; simpl.
  - intros (key & ? & ? & ?)%IH. exists key. split_and!; [done | | done].
    by right.
  - intros [= <-]. apply getitem_raise in Hget as [-> Hn].
    exists n. split_and!; [done | by left | done].
Qed.

Lemma append_values_ok row names d row' :
  append_values' row names d = Ok row' →
  ∃ vs, Forall2 (λ n v, getitem d n = Ok v) names vs
        ∧ row' = row ++ ((λ v, Value (scalar_value' v)) <$> vs).
Proof.
  revert row. induction names as [|n names IH]; intros row.
  - intros [= <-]. exists []. split; [constructor | by rewrite app_nil_r].
  - rewrite append_values_cons.
    destruct (getitem d n) as [v | e] eqn:Hget; simpl; [| done].
    intros (vs & Hvs & ->)%IH. exists (v :: vs). split.
    + by constructor.
    + by rewrite <- (assoc_L (++)).
Qed.

(** *** The header and the rows *)

Local Abbreviation obj_names c := (keys (get_objectives c)).
Local Abbreviation con_names c :=
  (filter (λ x, x ∉ obj_names c) (keys (get_constraints c))).
Local Abbreviation des_names c :=
  (filter (λ x, x ∉ obj_names c ++ con_names c) (keys (get_design_vars c))).

(** The case has every variable that the row loops look up. *)
Local Abbreviation present st c :=
  ((∀ n, n ∈ objectives_names st → n ∈ keys (get_objectives c))
   ∧ (∀ n, n ∈ constraints_names st → n ∈ keys (get_constraints c))
   ∧ (∀ n, n ∈ desvars_names st → n ∈ keys (get_design_vars c))).

(** The row of a case: the iteration count, then the values of the
    objectives, of the constraints and of the design variables. *)
Local Abbreviation row_of st i c r :=
  (∃ vo vc vd,
     Forall2 (λ n v, getitem (get_objectives c) n = Ok v)
       (objectives_names st) vo
     ∧ Forall2 (λ n v, getitem (get_constraints c) n = Ok v)
         (constraints_names st) vc
     ∧ Forall2 (λ n v, getitem (get_design_vars c) n = Ok v)
         (desvars_names st) vd
     ∧ r = IterCount i
           :: ((λ v, Value (scalar_value' v)) <$> (vo ++ vc ++ vd))).

Lemma header_eq driver_case :
  NoDup (keys (get_constraints driver_case)) →
  NoDup (keys (get_design_vars driver_case)) →
  header driver_case
  = {| objectives_names := obj_names driver_case;
       constraints_names := con_names driver_case;
       desvars_names := des_names driver_case;
       df := Some {| columns :=
                       "iter_count"
                       :: obj_names driver_case ++ con_names driver_case
                          ++ des_names driver_case;
                     rows := [] |} |}.
Proof.
  intros Hc Hd. unfold header.
  rewrite (new_names_filter _ _ Hc). cbv beta iota zeta.
  rewrite (new_names_filter _ _ Hd). cbv beta iota zeta.
  by rewrite <- (assoc_L (++)).
Qed.

Lemma add_row_cases st i driver_case (d : DataFrame val) :
  df st = Some d →
  length (columns d)
  = S (length (objectives_names st ++ constraints_names st
               ++ desvars_names st)) →
  i ∉ (rows d).*1 →
  (∃ key, add_row norm st i driver_case = Raise (KeyError key)
          ∧ ¬ present st driver_case)
  ∨ (∃ r, row_of st i driver_case r
          ∧ present st driver_case
          ∧ add_row norm st i driver_case
            = Ok {| objectives_names := objectives_names st;
                    constraints_names := constraints_names st;
                    desvars_names := desvars_names st;
                    df := Some {| columns := columns d;
                                  rows := rows d ++ [(i, r)] |} |}).
Proof.
  intros Hdf Hlen Hi. unfold add_row.
  destruct (append_values' [IterCount i] (objectives_names st)
              (get_objectives driver_case)) as [r1 | e1] eqn:H1.
  2: { left. destruct (append_values_raises _ _ _ _ H1)
         as (key & -> & Hin & Hout).
       exists key. split; [done |]. intros (Ha & _ & _). by apply Hout, Ha. }
  cbn [bind].
  destruct (append_values' r1 (constraints_names st)
              (get_constraints driver_case)) as [r2 | e2] eqn:H2.
  2: { left. destruct (append_values_raises _ _ _ _ H2)
         as (key & -> & Hin & Hout).
       exists key. split; [done |]. intros (_ & Ha & _). by apply Hout, Ha. }
  cbn [bind].
  destruct (append_values' r2 (desvars_names st)
              (get_design_vars driver_case)) as [r3 | e3] eqn:H3.
  2: { left. destruct (append_values_raises _ _ _ _ H3)
         as (key & -> & Hin & Hout).
       exists key. split; [done |]. intros (_ & _ & Ha). by apply Hout, Ha. }
  cbn [bind]. right.
  assert (present st driver_case) as Hpresent.
  { split_and!.
    - apply (append_values_is_ok [IterCount i]). by rewrite H1.
    - apply (append_values_is_ok r1). by rewrite H2.
    - apply (append_values_is_ok r2). by rewrite H3. }
  destruct (append_values_ok _ _ _ _ H1) as (vo & Hvo & ->).
  destruct (append_values_ok _ _ _ _ H2) as (vc & Hvc & ->).
  destruct (append_values_ok _ _ _ _ H3) as (vd & Hvd & ->).
  exists (IterCount i :: ((λ v, Value (scalar_value' v)) <$> (vo ++ vc ++ vd))).
  split; [by exists vo, vc, vd |]. split; [done |].
  assert ((([IterCount i] ++ ((λ v, Value (scalar_value' v)) <$> vo))
           ++ ((λ v, Value (scalar_value' v)) <$> vc))
          ++ ((λ v, Value (scalar_value' v)) <$> vd)
          = IterCount i
            :: ((λ v, Value (scalar_value' v)) <$> (vo ++ vc ++ vd))) as ->.
  { rewrite !fmap_app. simpl. by rewrite <- !(assoc_L (++)). }
  unfold loc_setitem. rewrite Hdf.
  rewrite bool_decide_eq_true_2.
  - by rewrite (bool_decide_eq_false_2 _ Hi).
  - rewrite Hlen. simpl. f_equal. rewrite length_fmap, !length_app.
    apply Forall2_length in Hvo, Hvc, Hvd. lia.
Qed.

Lemma for_cases_later st i driver_cases (d : DataFrame val) :
  i ≠ 0 →
  df st = Some d →
  length (columns d)
  = S (length (objectives_names st ++ constraints_names st
               ++ desvars_names st)) →
  (∀ j, j ∈ (rows d).*1 → j < i) →
  (∃ key, for_cases norm st i driver_cases = Raise (KeyError key)
          ∧ ¬ Forall (λ c, present st c) driver_cases)
  ∨ (∃ new,
       for_cases norm st i driver_cases
       = Ok {| objectives_names := objectives_names st;
               constraints_names := constraints_names st;
               desvars_names := desvars_names st;
               df := Some {| columns := columns d;
                             rows := rows d ++ new |} |}
       ∧ Forall (λ c, present st c) driver_cases
       ∧ length new = length driver_cases
       ∧ ∀ k c, driver_cases !! k = Some c →
           ∃ r, new !! k = Some (i + k, r) ∧ row_of st (i + k) c r).
Proof.
  revert st i d.
  induction driver_cases as [|c driver_cases IH];
    intros st i d Hi Hdf Hlen Hrows.
  - right. exists []. simpl. rewrite app_nil_r.
    split_and!; [| done | done | done].
    destruct st as [? ? ? ?]. simpl in Hdf |- *. rewrite Hdf.
    by destruct d.
  - simpl. unfold add_case.
    destruct i as [|i]; [done |]. simpl Nat.eqb. cbv iota.
    destruct (add_row_cases st (S i) c d Hdf Hlen)
      as [(key & -> & Hno) | (r & Hr & Hpresent & ->)].
    { intros Hin%Hrows. lia. }
    { left. exists key. split; [done |]. by intros [? _]%Forall_cons. }
    cbn [bind].
    match goal with
    | |- context [for_cases norm ?s _ _] => set (st' := s)
    end.
    destruct (IH st' (S (S i))
                {| columns := columns d; rows := rows d ++ [(S i, r)] |})
      as [(key & Hraise & Hno) | (new & Hok & Hall & Hnew & Hlook)];
      [done | done | done | | |].
    { simpl. intros j. rewrite fmap_app, elem_of_app. simpl.
      intros [?%Hrows | ->%list_elem_of_singleton]; lia. }
    + left. exists key. split; [done |]. by intros [_ ?]%Forall_cons.
    + right. exists ((S i, r) :: new). rewrite Hok. subst st'. simpl.
      split_and!.
      * by rewrite <- (assoc_L (++)).
      * by constructor.
      * by rewrite Hnew.
      * intros [|k] c'; simpl.
        -- intros [= <-]. exists r. by rewrite Nat.add_0_r.
        -- intros Hc'. destruct (Hlook k c' Hc') as (r' & Hr' & Hrow').
           exists r'. by replace (S (i + S k)) with (S (S i) + k) by lia.
Qed.

Lemma Forall2_impl_elem_of {A B} (P Q : A → B → Prop) l k :
  Forall2 P l k → (∀ x y, x ∈ l → P x y → Q x y) → Forall2 Q l k.
Proof.
  induction 1 as [|x y l k Hxy Hlk IH]; intros HPQ; constructor.
  - apply HPQ; [by left | done].
  - apply IH. intros x' y' Hx'. apply HPQ. by right.
Qed.

Lemma header_present driver_case :
  NoDup (keys (get_constraints driver_case)) →
  NoDup (keys (get_design_vars driver_case)) →
  present (header driver_case) driver_case.
Proof.
  intros Hc Hd. rewrite (header_eq _ Hc Hd). simpl. split_and!.
  - done.
  - by intros n [_ ?]%list_elem_of_filter.
  - by intros n [_ ?]%list_elem_of_filter.
Qed.

Lemma convert_cases driver_case driver_cases :
  NoDup (keys (get_constraints driver_case)) →
  NoDup (keys (get_design_vars driver_case)) →
  (∃ key,
     convert_case_recorder_file_to_df norm (driver_case :: driver_cases)
     = Raise (KeyError key)
     ∧ ¬ Forall (λ c, present (header driver_case) c) driver_cases)
  ∨ (∃ new,
       convert_case_recorder_file_to_df norm (driver_case :: driver_cases)
       = Ok (Some {| columns :=
                       "iter_count"
                       :: obj_names driver_case ++ con_names driver_case
                          ++ des_names driver_case;
                     rows := new |})
       ∧ Forall (λ c, present (header driver_case) c) driver_cases
       ∧ length new = S (length driver_cases)
       ∧ ∀ k c, (driver_case :: driver_cases) !! k = Some c →
           ∃ r, new !! k = Some (k, r)
                ∧ row_of (header driver_case) k c r).
Proof.
  intros Hc Hd. pose proof (header_present _ Hc Hd) as Hpresent.
  unfold convert_case_recorder_file_to_df. simpl for_cases.
  unfold add_case. simpl Nat.eqb. cbv iota.
  set (st := header driver_case) in *.
  set (d := {| columns :=
                 "iter_count"
                 :: obj_names driver_case ++ con_names driver_case
                    ++ des_names driver_case;
               rows := [] |} : DataFrame val).
  assert (df st = Some d) as Hdf.
  { subst st. by rewrite (header_eq _ Hc Hd). }
  assert (length (columns d)
          = S (length (objectives_names st ++ constraints_names st
                       ++ desvars_names st))) as Hlen.
  { subst st. by rewrite (header_eq _ Hc Hd). }
  destruct (add_row_cases st 0 driver_case d Hdf Hlen)
    as [(key & _ & Hno) | (r & Hr & _ & ->)]; [by intros ?%elem_of_nil | done |].
  cbn [bind].
  match goal with
  | |- context [for_cases norm ?s _ _] => set (st' := s)
  end.
  destruct (for_cases_later st' 1 driver_cases
              {| columns := columns d; rows := rows d ++ [(0, r)] |})
    as [(key & Hraise & Hno) | (new & Hok & Hall & Hnew & Hlook)];
    [done | done | done | | |].
  { simpl. intros j [= <-]%list_elem_of_singleton. lia. }
  - left. exists key. rewrite Hraise. done.
  - right. exists ((0, r) :: new). rewrite Hok. subst st'. simpl.
    split_and!; [done | done | by rewrite Hnew |].
    intros [|k] c; simpl.
    + intros [= <-]. by exists r.
    + intros Hc'. destruct (Hlook k c Hc') as (r' & Hr' & Hrow').
      by exists r'.
Qed.

(** X13. The header of the data frame: [iter_count], then the objectives,
    then the constraints that are not objectives, then the design variables
    that are neither, each in the order of the first driver case. Every
    variable of the first case has exactly one column. *)
Theorem data_frame_header driver_case driver_cases (frame : DataFrame val) :
  NoDup (keys (get_objectives driver_case)) →
  NoDup (keys (get_constraints driver_case)) →
  NoDup (keys (get_design_vars driver_case)) →
  convert_case_recorder_file_to_df norm (driver_case :: driver_cases)
  = Ok (Some frame) →
  columns frame
  = "iter_count"
    :: keys (get_objectives driver_case)
       ++ filter (λ x, x ∉ keys (get_objectives driver_case))
            (keys (get_constraints driver_case))
       ++ filter (λ x, x ∉ keys (get_objectives driver_case)
                         ++ filter (λ x, x ∉ keys (get_objectives driver_case))
                              (keys (get_constraints driver_case)))
            (keys (get_design_vars driver_case))
  ∧ (∀ n, n ∈ tail (columns frame)
          ↔ n ∈ keys (get_objectives driver_case)
            ∨ n ∈ keys (get_constraints driver_case)
            ∨ n ∈ keys (get_design_vars driver_case))
  ∧ NoDup (tail (columns frame))
  ∧ ("iter_count" ∉ tail (columns frame) → NoDup (columns frame)).
Proof.
  intros Ho Hc Hd Hconv.
  destruct (convert_cases driver_case driver_cases Hc Hd)
    as [(key & Hraise & _) | (new & Hok & _)];
    [by rewrite Hraise in Hconv |].
  rewrite Hok in Hconv. injection Hconv as <-. simpl.
  split_and!.
  - done.
  - intros n. rewrite !elem_of_app, !list_elem_of_filter, elem_of_app,
      list_elem_of_filter.
    destruct (decide (n ∈ obj_names driver_case));
      destruct (decide (n ∈ keys (get_constraints driver_case)));
      naive_solver.
  - apply NoDup_app. split_and!.
    + done.
    + intros n Hn [[Hno _]%list_elem_of_filter | [Hno _]%list_elem_of_filter
                  ]%elem_of_app.
      * done.
      * apply Hno, elem_of_app. by left.
    + apply NoDup_app. split_and!.
      * by apply NoDup_filter.
      * intros n Hn [Hno _]%list_elem_of_filter.
        apply Hno, elem_of_app. by right.
      * by apply NoDup_filter.
  - intros Hiter. apply NoDup_cons. split; [done |].
    apply NoDup_app. split_and!.
    + done.
    + intros n Hn [[Hno _]%list_elem_of_filter | [Hno _]%list_elem_of_filter
                  ]%elem_of_app.
      * done.
      * apply Hno, elem_of_app. by left.
    + apply NoDup_app. split_and!.
      * by apply NoDup_filter.
      * intros n Hn [Hno _]%list_elem_of_filter.
        apply Hno, elem_of_app. by right.
      * by apply NoDup_filter.
Qed.

(** X14. The rows of the data frame: one per driver case, in recording
    order and labelled by its position. A row has one entry per column: the
    iteration count, then under each variable its value in the case, a
    scalar as it is and an array as its norm. A variable found in several
    of the three dictionaries is read from the objectives, else from the
    constraints. *)
Theorem data_frame_rows driver_case driver_cases (frame : DataFrame val) :
  NoDup (keys (get_constraints driver_case)) →
  NoDup (keys (get_design_vars driver_case)) →
  convert_case_recorder_file_to_df norm (driver_case :: driver_cases)
  = Ok (Some frame) →
  length (rows frame) = S (length driver_cases)
  ∧ ∀ i c,
      (driver_case :: driver_cases) !! i = Some c →
      ∃ r, rows frame !! i = Some (i, r)
           ∧ length r = length (columns frame)
           ∧ r !! 0 = Some (IterCount i)
           ∧ ∀ k n,
               tail (columns frame) !! k = Some n →
               ∃ v,
                 getitem
                   (if decide (n ∈ keys (get_objectives driver_case))
                    then get_objectives c
                    else if decide (n ∈ keys (get_constraints driver_case))
                         then get_constraints c
                         else get_design_vars c) n
                 = Ok v
                 ∧ r !! S k = Some (Value (scalar_value' v)).
Proof.
  intros Hc Hd Hconv.
  destruct (convert_cases driver_case driver_cases Hc Hd)
    as [(key & Hraise & _) | (new & Hok & _ & Hnew & Hlook)];
    [by rewrite Hraise in Hconv |].
  rewrite Hok in Hconv. injection Hconv as <-. simpl.
  split; [done |]. intros i c Hi.
  destruct (Hlook i c Hi) as (r & Hr & vo & vc & vd & Hvo & Hvc & Hvd & ->).
  rewrite (header_eq _ Hc Hd) in Hvo, Hvc, Hvd. simpl in Hvo, Hvc, Hvd.
  exists (IterCount i :: ((λ v, Value (scalar_value' v)) <$> (vo ++ vc ++ vd))).
  assert (Forall2 (λ n v,
            getitem
              (if decide (n ∈ keys (get_objectives driver_case))
               then get_objectives c
               else if decide (n ∈ keys (get_constraints driver_case))
                    then get_constraints c
                    else get_design_vars c) n = Ok v)
            (obj_names driver_case ++ con_names driver_case
             ++ des_names driver_case) (vo ++ vc ++ vd)) as Hall.
  { repeat apply Forall2_app.
    - eapply Forall2_impl_elem_of; [exact Hvo |]. intros n v Hn Hv.
      by rewrite decide_True.
    - eapply Forall2_impl_elem_of; [exact Hvc |].
      intros n v [Hno Hn]%list_elem_of_filter Hv.
      by rewrite decide_False, decide_True.
    - eapply Forall2_impl_elem_of; [exact Hvd |].
      intros n v [Hno Hn]%list_elem_of_filter Hv.
      rewrite decide_False, decide_False; [done | |].
      + intros Hcon. apply Hno, elem_of_app. right.
        apply list_elem_of_filter. split; [| done].
        intros Hobj. apply Hno, elem_of_app. by left.
      + intros Hobj. apply Hno, elem_of_app. by left. }
  split_and!; [done | | done |].
  - simpl. f_equal. rewrite length_fmap. symmetry.
    by apply Forall2_length in Hall.
  - intros k n Hk. destruct (Forall2_lookup_l _ _ _ _ _ Hall Hk)
      as (v & Hv & Hget).
    exists v. split; [done |]. simpl. by rewrite list_lookup_fmap, Hv.
Qed.

(** X15. The conversion returns no frame for a file without driver case.
    Otherwise it completes exactly when every later case still has the
    variables of the header, each in the dictionary it is read from; the
    only error it raises is the [KeyError] of a missing variable, so a
    single case always gives a frame, and no row is refused for its
    length. *)
Theorem data_frame_completes driver_case driver_cases :
  NoDup (keys (get_constraints driver_case)) →
  NoDup (keys (get_design_vars driver_case)) →
  convert_case_recorder_file_to_df norm [] = Ok None
  ∧ (is_ok (convert_case_recorder_file_to_df norm
              (driver_case :: driver_cases)) = true
     ↔ Forall (λ c,
         (∀ n, n ∈ keys (get_objectives driver_case) →
               n ∈ keys (get_objectives c))
         ∧ (∀ n, n ∈ keys (get_constraints driver_case) →
                 n ∉ keys (get_objectives driver_case) →
                 n ∈ keys (get_constraints c))
         ∧ (∀ n, n ∈ keys (get_design_vars driver_case) →
                 n ∉ keys (get_objectives driver_case) →
                 n ∉ keys (get_constraints driver_case) →
                 n ∈ keys (get_design_vars c))) driver_cases)
  ∧ (∀ e, convert_case_recorder_file_to_df norm (driver_case :: driver_cases)
          = Raise e →
          ∃ key, e = KeyError key)
  ∧ convert_case_recorder_file_to_df norm (driver_case :: driver_cases)
    ≠ Ok None
  ∧ is_ok (convert_case_recorder_file_to_df norm [driver_case]) = true.
Proof.
  intros Hc Hd.
  assert (∀ c : Case val, present (header driver_case) c ↔
    (∀ n, n ∈ keys (get_objectives driver_case) →
          n ∈ keys (get_objectives c))
    ∧ (∀ n, n ∈ keys (get_constraints driver_case) →
            n ∉ keys (get_objectives driver_case) →
            n ∈ keys (get_constraints c))
    ∧ (∀ n, n ∈ keys (get_design_vars driver_case) →
            n ∉ keys (get_objectives driver_case) →
            n ∉ keys (get_constraints driver_case) →
            n ∈ keys (get_design_vars c))) as Hpresent.
  { intros c. rewrite (header_eq _ Hc Hd). simpl.
    split; intros (Ho & Hcon & Hdes); split_and!; try done.
    - intros n Hn Hno. apply Hcon, list_elem_of_filter. by split.
    - intros n Hn Hno Hnc. apply Hdes, list_elem_of_filter.
      split; [| done].
      by intros [? | [_ ?]%list_elem_of_filter]%elem_of_app.
    - intros n [Hno Hn]%list_elem_of_filter. by apply Hcon.
    - intros n [Hno Hn]%list_elem_of_filter. apply Hdes; [done | |].
      + intros Hobj. apply Hno, elem_of_app. by left.
      + intros Hcon'. apply Hno, elem_of_app. right.
        apply list_elem_of_filter. split; [| done].
        intros Hobj. apply Hno, elem_of_app. by left. }
  split_and!.
  - done.
  - destruct (convert_cases driver_case driver_cases Hc Hd)
      as [(key & -> & Hno) | (new & -> & Hall & _)]; simpl.
    + split; [done |]. intros Hall. exfalso. apply Hno.
      eapply Forall_impl; [exact Hall |]. intros c. by apply Hpresent.
    + split; [intros _ | done].
      eapply Forall_impl; [exact Hall |]. intros c. by apply Hpresent.
  - intros e.
    destruct (convert_cases driver_case driver_cases Hc Hd)
      as [(key & -> & _) | (new & -> & _)]; [| done].
    intros [= <-]. by exists key.
  - destruct (convert_cases driver_case driver_cases Hc Hd)
      as [(key & -> & _) | (new & -> & _)]; done.
  - destruct (convert_cases driver_case [] Hc Hd)
      as [(key & _ & Hno) | (new & -> & _)]; [| done].
    exfalso. apply Hno. constructor.
Qed.

End DashboardFrame.

(** ** The table of Aviary variables of the dashboard *)

(** *** The order of strings and [sorted] *)

Lemma str_le_cases (s1 s2 : string) :
  Dashboard.Table.str_le s1 s2 ↔ String_as_OT.lt s1 s2 ∨ s1 = s2.
Proof.
  unfold Dashboard.Table.str_le, String.leb.
  rewrite <- String_as_OT.cmp_lt, <- String_as_OT.cmp_eq.
  change (String_as_OT.cmp s1 s2) with (String.compare s1 s2).
  destruct (String.compare s1 s2); naive_solver.
Qed.

Global Instance str_le_trans : Transitive Dashboard.Table.str_le.
Proof.
  intros x y z. rewrite !str_le_cases.
  intros [Hxy | ->] [Hyz | ->]; auto.
  left. by apply (String_as_OT.lt_trans x y z).
Qed.

Global Instance str_le_total : Total Dashboard.Table.str_le.
Proof. intros x y. apply String.leb_total. Qed.

Global Instance str_le_antisym : AntiSymm eq Dashboard.Table.str_le.
Proof. intros x y. apply String.leb_antisym. Qed.

Lemma sorted_Permutation (l : list string) : Dashboard.Table.sorted l ≡ₚ l.
Proof. apply merge_sort_Permutation. Qed.

Lemma sorted_StronglySorted (l : list string) :
  StronglySorted Dashboard.Table.str_le (Dashboard.Table.sorted l).
Proof. apply (StronglySorted_merge_sort _). Qed.

Lemma elem_of_sorted (l : list string) (x : string) :
  x ∈ Dashboard.Table.sorted l ↔ x ∈ l.
Proof. by rewrite sorted_Permutation. Qed.

Lemma elem_of_sorted_1 (l : list string) (x : string) :
  x ∈ Dashboard.Table.sorted l → x ∈ l.
Proof. apply elem_of_sorted. Qed.

Lemma NoDup_sorted (l : list string) :
  NoDup (Dashboard.Table.sorted l) ↔ NoDup l.
Proof. by rewrite sorted_Permutation. Qed.

(** *** Dictionaries *)

Section Dicts.

Import Dashboard Dashboard.Table.

Context {A : Type}.
Implicit Types (d : dict A) (key : string) (a : A).

Lemma getitem_ok_elem_of d key a :
  getitem d key = Ok a → (key, a) ∈ d.
Proof.
  unfold getitem. induction d as [|[k b] d IH]; simpl; [done |].
  case_bool_decide as Hk; simpl in Hk.
  - intros [= <-]. subst k. by left.
  - intros ?%IH. by right.
Qed.

Lemma getitem_elem_of d key a :
  NoDup (keys d) → (key, a) ∈ d → getitem d key = Ok a.
Proof.
  unfold getitem, keys. induction d as [|[k b] d IH]; simpl.
  - by intros _ ?%elem_of_nil.
  - intros [Hk Hnd]%NoDup_cons [[= <- <-] | Hin]%elem_of_cons.
    + by rewrite bool_decide_eq_true_2.
    + rewrite bool_decide_eq_false_2; [by apply IH |].
      simpl. intros ->. apply Hk. apply list_elem_of_fmap.
      by exists (key, a).
Qed.

Lemma getitem_keys d key :
  key ∈ keys d → ∃ a, getitem d key = Ok a.
Proof.
  intros Hin%getitem_is_ok. destruct (getitem d key) as [a | e]; [| done].
  by exists a.
Qed.

Lemma keys_setitem d key a :
  keys (setitem d key a)
  = if bool_decide (key ∈ keys d) then keys d else keys d ++ [key].
Proof.
  unfold setitem, keys. case_bool_decide as Hin.
  - rewrite <- list_fmap_compose. apply list_fmap_ext.
    intros i [k b] _. simpl. by case_decide.
  - by rewrite fmap_app.
Qed.

Lemma getitem_setitem d key a : getitem (setitem d key a) key = Ok a.
Proof.
  unfold setitem, getitem, keys. case_bool_decide as Hin.
  - induction d as [|[k b] d IH]; simpl; [by apply elem_of_nil in Hin |].
    case_decide as Hk; simpl in Hk |- *.
    + by rewrite bool_decide_eq_true_2.
    + rewrite bool_decide_eq_false_2 by done. apply IH.
      simpl in Hin. apply elem_of_cons in Hin as [? | ?]; [| done].
      by subst.
  - induction d as [|[k b] d IH]; simpl.
    + by rewrite bool_decide_eq_true_2.
    + simpl in Hin. apply not_elem_of_cons in Hin as [Hk Hin].
      rewrite bool_decide_eq_false_2 by (simpl; congruence). by apply IH.
Qed.

Lemma getitem_setitem_ne d key key' a :
  key ≠ key' → getitem (setitem d key a) key' = getitem d key'.
Proof.
  intros Hne. unfold setitem, getitem, keys. case_bool_decide as Hin.
  - clear Hin. induction d as [|[k b] d IH]; simpl; [done |].
    case_decide as Hk; simpl in Hk |- *.
    + subst k. by rewrite !bool_decide_eq_false_2 by done.
    + case_bool_decide; [done | apply IH].
  - clear Hin. induction d as [|[k b] d IH]; simpl.
    + by rewrite bool_decide_eq_false_2.
    + case_bool_decide; [done | apply IH].
Qed.

End Dicts.

(** *** Grouping by prefix *)

Section Grouping.

Import Dashboard Dashboard.Table.

Implicit Types (grouped : dict (list string)) (names : list string).

Local Abbreviation members_of p names :=
  (filter (λ s, split_head s = p) names).

(** What the grouping loop has built after the names [names]. *)
Local Abbreviation grouped_for grouped names :=
  (NoDup (keys grouped)
   ∧ (∀ p, p ∈ keys grouped ↔ ∃ s, s ∈ names ∧ split_head s = p)
   ∧ (∀ p, p ∈ keys grouped →
           getitem grouped p = Ok (members_of p names))).

Lemma group_by_prefix_raise names e :
  foldl (λ acc s,
           bind acc (λ grouped,
           let prefix := split_head s in
           let grouped :=
             if bool_decide (prefix ∉ keys grouped)
             then setitem grouped prefix []
             else grouped in
           bind (getitem grouped prefix) (λ members,
           Ok (setitem grouped prefix (members ++ [s])))))
    (Raise e) names = Raise e.
Proof. induction names as [|s names IH]; simpl; done. Qed.

Lemma members_of_snoc p names s :
  members_of p (names ++ [s])
  = members_of p names ++ (if decide (split_head s = p) then [s] else []).
Proof. by rewrite filter_app. Qed.

Lemma group_step grouped names s :
  grouped_for grouped names →
  ∃ grouped',
    (let prefix := split_head s in
     let grouped :=
       if bool_decide (prefix ∉ keys grouped)
       then setitem grouped prefix []
       else grouped in
     bind (getitem grouped prefix) (λ members,
     Ok (setitem grouped prefix (members ++ [s])))) = Ok grouped'
    ∧ grouped_for grouped' (names ++ [s]).
Proof.
  intros (Hnd & Hkeys & Hget). cbv zeta.
  set (p := split_head s).
  assert (∀ q, (∃ t, t ∈ names ++ [s] ∧ split_head t = q)
               ↔ q = p ∨ ∃ t, t ∈ names ∧ split_head t = q) as Hsnoc.
  { intros q. split.
    - intros (t & [Ht | ->%list_elem_of_singleton]%elem_of_app & Hq).
      + right. by exists t.
      + by left.
    - intros [-> | (t & Ht & Hq)].
      + exists s. split; [| done]. apply elem_of_app. right.
        by apply list_elem_of_singleton.
      + exists t. split; [| done]. apply elem_of_app. by left. }
  case_bool_decide as Hp.
  - (* a new prefix *)
    rewrite getitem_setitem. cbn [bind app].
    eexists. split; [done |].
    assert (keys (setitem (setitem grouped p []) p [s]) = keys grouped ++ [p])
      as Hk.
    { rewrite !keys_setitem. rewrite (bool_decide_eq_false_2 _ Hp).
      rewrite bool_decide_eq_true_2; [done |].
      apply elem_of_app. right. by apply list_elem_of_singleton. }
    assert (members_of p names = []) as Hnone.
    { destruct (members_of p names) as [|t l] eqn:Hmem; [done |].
      exfalso. assert (t ∈ members_of p names) as Ht by (rewrite Hmem; left).
      apply list_elem_of_filter in Ht as [Hq Ht].
      apply Hp, Hkeys. by exists t. }
    rewrite Hk. split_and!.
    + apply NoDup_app. split_and!; [done | | apply NoDup_singleton].
      by intros q Hq ->%list_elem_of_singleton.
    + intros q. rewrite Hsnoc, elem_of_app, list_elem_of_singleton, Hkeys.
      naive_solver.
    + intros q Hq. rewrite members_of_snoc.
      destruct (decide (q = p)) as [-> | Hne].
      * rewrite getitem_setitem, Hnone. by rewrite decide_True.
      * rewrite !getitem_setitem_ne by done.
        rewrite decide_False by done. rewrite app_nil_r. apply Hget.
        apply elem_of_app in Hq as [? | ?%list_elem_of_singleton]; done.
  - (* a prefix seen before *)
    rename Hp into Hin.
    rewrite (Hget p Hin). cbn [bind].
    eexists. split; [done |].
    assert (keys (setitem grouped p (members_of p names ++ [s]))
            = keys grouped) as Hk.
    { rewrite keys_setitem. by rewrite bool_decide_eq_true_2. }
    rewrite Hk. split_and!.
    + done.
    + intros q. rewrite Hsnoc, Hkeys. split; [by right |].
      intros [-> | ?]; [by apply Hkeys | done].
    + intros q Hq. rewrite members_of_snoc.
      destruct (decide (q = p)) as [-> | Hne].
      * rewrite getitem_setitem. by rewrite decide_True.
      * rewrite getitem_setitem_ne by done.
        rewrite decide_False by done. rewrite app_nil_r. by apply Hget.
Qed.

Lemma group_by_prefix_acc names done grouped :
  grouped_for grouped done →
  ∃ grouped',
    foldl (λ acc s,
             bind acc (λ grouped,
             let prefix := split_head s in
             let grouped :=
               if bool_decide (prefix ∉ keys grouped)
               then setitem grouped prefix []
               else grouped in
             bind (getitem grouped prefix) (λ members,
             Ok (setitem grouped prefix (members ++ [s])))))
      (Ok grouped) names = Ok grouped'
    ∧ grouped_for grouped' (done ++ names).
Proof.
  revert done grouped.
  induction names as [|s names IH]; intros done grouped Hinv.
  - exists grouped. by rewrite app_nil_r.
  - destruct (group_step grouped done s Hinv) as (grouped1 & Hstep & Hinv1).
    cbn [foldl bind]. cbv zeta in Hstep. rewrite Hstep.
    destruct (IH (done ++ [s]) grouped1 Hinv1) as (grouped' & Hfold & Hinv').
    exists grouped'. split; [done |].
    by rewrite <- (assoc_L (++)) in Hinv'.
Qed.

Lemma group_by_prefix_spec names :
  ∃ grouped, group_by_prefix names = Ok grouped ∧ grouped_for grouped names.
Proof.
  destruct (group_by_prefix_acc names [] []) as (grouped & Hfold & Hinv).
  - split_and!.
    + constructor.
    + intros p. split; [by intros ?%elem_of_nil |].
      by intros (s & ?%elem_of_nil & _).
    + by intros p ?%elem_of_nil.
  - by exists grouped.
Qed.

End Grouping.

(** *** The entries of the table *)

Section TableEntries.

Import Dashboard Dashboard.Table.

Context {V J M : Type}.
Context (convert_ndarray_to_support_nans_in_json : V → J).
Context (CoreMetaData_get : string → option M).
Context (json_dumps : option M → string).

Implicit Types (outputs : dict (Output V)) (info : Output V).
Implicit Types (grouped : dict (list string)) (names members : list string).
Implicit Types (table : list (Entry J)) (children : list (VarEntry J)).

Local Abbreviation var_entry' :=
  (var_entry convert_ndarray_to_support_nans_in_json CoreMetaData_get
     json_dumps).
Local Abbreviation table_entry' :=
  (table_entry convert_ndarray_to_support_nans_in_json CoreMetaData_get
     json_dumps).
Local Abbreviation create' :=
  (create_aviary_variables_table_data_nested
     convert_ndarray_to_support_nans_in_json CoreMetaData_get json_dumps).

Local Abbreviation members_of p names :=
  (filter (λ s, split_head s = p) names).

(** The entry of the variable described by [info], under the name [n]. *)
Local Abbreviation entry_of n info :=
  {| abs_name := n;
     prom_name := output_prom_name info;
     value := convert_ndarray_to_support_nans_in_json (output_val info);
     units := output_units info;
     metadata := json_dumps (CoreMetaData_get (output_prom_name info)) |}.

Local Abbreviation entry_name :=
  (λ e : Entry J,
     match e with
     | Variable_ entry => abs_name entry
     | Group_ group_abs_name _ => group_abs_name
     end).

(** The entry of the group [g] with the members [members]. *)
Local Abbreviation entry_for :=
  (λ outputs g members e,
     match members with
     | [v] => ∃ info, getitem outputs v = Ok info
                      ∧ e = Variable_ (entry_of g info)
     | _ => ∃ children,
              Forall2 (λ c ce, ∃ info, getitem outputs c = Ok info
                                       ∧ ce = entry_of c info)
                members children
              ∧ e = Group_ g children
     end).

Lemma for_each_ok {A B} (f : A → result B) (l : list A) :
  (∀ x, x ∈ l → ∃ y, f x = Ok y) →
  ∃ ys, for_each f l = Ok ys ∧ Forall2 (λ x y, f x = Ok y) l ys.
Proof.
  induction l as [|x l IH]; intros Hall.
  - exists []. split; [done | constructor].
  - destruct (Hall x) as [y Hy]; [by left |].
    destruct IH as (ys & Hys & Hrel).
    { intros x' Hx'. apply Hall. by right. }
    exists (y :: ys). simpl. rewrite Hy. simpl. rewrite Hys. simpl.
    split; [done | by constructor].
Qed.

Lemma var_entry_ok outputs n s :
  s ∈ keys outputs →
  ∃ info, getitem outputs s = Ok info
          ∧ var_entry' outputs n s = Ok (entry_of n info).
Proof.
  intros [info Hget]%getitem_keys. exists info. split; [done |].
  unfold var_entry. by rewrite Hget.
Qed.

Lemma table_entry_ok outputs grouped g members :
  getitem grouped g = Ok members →
  (∀ s, s ∈ members → s ∈ keys outputs) →
  ∃ e, table_entry' outputs grouped g = Ok e
       ∧ entry_for outputs g members e.
Proof.
  intros Hget Hin. unfold table_entry. rewrite Hget. cbn [bind].
  assert (∃ children,
            for_each (λ c, var_entry' outputs c c) members = Ok children
            ∧ Forall2 (λ c ce, ∃ info, getitem outputs c = Ok info
                                       ∧ ce = entry_of c info)
                members children) as (children & Hfor & Hrel).
  { destruct (for_each_ok (λ c, var_entry' outputs c c) members)
      as (children & Hfor & Hrel).
    - intros c Hc. destruct (var_entry_ok outputs c c (Hin c Hc))
        as (info & _ & Hentry). by eexists.
    - exists children. split; [done |].
      eapply Forall2_impl_elem_of; [exact Hrel |].
      intros c ce Hc Hce.
      destruct (var_entry_ok outputs c c (Hin c Hc)) as (info & Hinfo & He).
      exists info. split; [done |]. congruence. }
  destruct members as [|v [|v' members]].
  - rewrite Hfor. cbn [bind]. eexists. split; [done |]. by exists children.
  - destruct (var_entry_ok outputs g v) as (info & Hinfo & Hentry).
    { apply Hin. by left. }
    rewrite Hentry. cbn [bind]. eexists. split; [done |]. by exists info.
  - rewrite Hfor. cbn [bind]. eexists. split; [done |]. by exists children.
Qed.

Lemma create_table files script_name list_cases outputs :
  "final" ∈ list_cases →
  ∃ grouped table,
    NoDup (keys grouped)
    ∧ (∀ p, p ∈ keys grouped
            ↔ ∃ s, s ∈ keys outputs ∧ split_head s = p)
    ∧ create' files script_name list_cases outputs
      = Ok (<["reports/" +:+ script_name +:+ "/aviary_vars/"
              +:+ aviary_variables_json_file_name := table]> files,
            Some table)
    ∧ Forall2 (λ g e,
                 entry_for outputs g
                   (members_of g (sorted (keys outputs))) e)
        (sorted (keys grouped)) table.
Proof.
  intros Hfinal. unfold create_aviary_variables_table_data_nested.
  rewrite bool_decide_eq_false_2 by (by intros Hno).
  destruct (group_by_prefix_spec (sorted (keys outputs)))
    as (grouped & -> & Hnd & Hkeys & Hget).
  cbn [bind].
  destruct (for_each_ok (table_entry' outputs grouped)
              (sorted (keys grouped))) as (table & -> & Hrel).
  { intros g Hg%elem_of_sorted_1.
    destruct (table_entry_ok outputs grouped g _ (Hget g Hg)) as (e & He & _).
    - by intros s [_ Hs%elem_of_sorted_1]%list_elem_of_filter.
    - by exists e. }
  cbn [bind]. exists grouped, table. split_and!; [done | | done |].
  - intros p. rewrite Hkeys. by setoid_rewrite elem_of_sorted.
  - eapply Forall2_impl_elem_of; [exact Hrel |].
    intros g e Hg%elem_of_sorted_1 He.
    destruct (table_entry_ok outputs grouped g _ (Hget g Hg))
      as (e' & He' & Hfor).
    + by intros s [_ Hs%elem_of_sorted_1]%list_elem_of_filter.
    + assert (e' = e) as -> by congruence. exact Hfor.
Qed.

Lemma entry_for_name outputs g members e :
  entry_for outputs g members e → entry_name e = g.
Proof.
  destruct members as [|v [|v' members]].
  - by intros (children & _ & ->).
  - by intros (info & _ & ->).
  - by intros (children & _ & ->).
Qed.

(** X16. The table of variables. Without a case [final] no table is made
    and no file written. Otherwise the table is returned and written to the
    variables file of the script; it has one entry per prefix (the part of
    a name before the first colon) of the output names, in ascending order
    and without repetition. No lookup fails on the way. *)
Theorem variables_table_groups files script_name list_cases outputs :
  ("final" ∉ list_cases →
   create' files script_name list_cases outputs = Ok (files, None))
  ∧ ("final" ∈ list_cases →
     ∃ table,
       create' files script_name list_cases outputs
       = Ok (<["reports/" +:+ script_name +:+ "/aviary_vars/aviary_vars.json"
               := table]> files,
             Some table)
       ∧ StronglySorted str_le (entry_name <$> table)
       ∧ NoDup (entry_name <$> table)
       ∧ ∀ n, n ∈ entry_name <$> table
              ↔ ∃ s, s ∈ keys outputs ∧ split_head s = n).
Proof.
  split.
  - intros Hno. unfold create_aviary_variables_table_data_nested.
    by rewrite bool_decide_eq_true_2.
  - intros Hfinal.
    destruct (create_table files script_name list_cases outputs Hfinal)
      as (grouped & table & Hnd & Hkeys & Hcreate & Hrel).
    exists table. split; [exact Hcreate |].
    assert (entry_name <$> table = sorted (keys grouped)) as ->.
    { clear Hcreate. induction Hrel as [|g e gs table Hge Hrel IH];
        [done |].
      simpl. f_equal; [| exact IH]. by eapply entry_for_name. }
    split_and!.
    + apply sorted_StronglySorted.
    + by apply NoDup_sorted.
    + intros n. by rewrite elem_of_sorted.
Qed.

(** X17. Every output is shown in the table. An output that is alone with
    its prefix is a top-level entry named by the prefix, not by the output;
    any other output is a child, under its own name, of the group entry of
    its prefix, whose children are the outputs with this prefix in
    ascending order, at least two. *)
Theorem variables_table_covers files files' script_name list_cases outputs
    table s info :
  NoDup (keys outputs) →
  create' files script_name list_cases outputs = Ok (files', Some table) →
  (s, info) ∈ outputs →
  (members_of (split_head s) (sorted (keys outputs)) = [s] →
   Variable_ (entry_of (split_head s) info) ∈ table)
  ∧ (members_of (split_head s) (sorted (keys outputs)) ≠ [s] →
     ∃ children,
       Group_ (split_head s) children ∈ table
       ∧ entry_of s info ∈ children
       ∧ abs_name <$> children
         = members_of (split_head s) (sorted (keys outputs))
       ∧ 2 ≤ length children).
Proof.
  intros Hnd Hcreate Hs.
  assert ("final" ∈ list_cases) as Hfinal.
  { destruct (decide ("final" ∈ list_cases)) as [? | Hno]; [done |].
    unfold create_aviary_variables_table_data_nested in Hcreate.
    by rewrite bool_decide_eq_true_2 in Hcreate. }
  destruct (create_table files script_name list_cases outputs Hfinal)
    as (grouped & table' & _ & Hkeys & Hcreate' & Hrel).
  assert (table' = table) as -> by congruence.
  pose proof (getitem_elem_of outputs s info Hnd Hs) as Hinfo.
  assert (s ∈ keys outputs) as Hkey.
  { apply list_elem_of_fmap. by exists (s, info). }
  set (p := split_head s).
  assert (p ∈ sorted (keys grouped)) as Hp.
  { apply elem_of_sorted, Hkeys. by exists s. }
  apply list_elem_of_lookup in Hp as [i Hi].
  destruct (Forall2_lookup_l _ _ _ _ _ Hrel Hi) as (e & He & Hfor).
  apply list_elem_of_lookup_2 in He.
  assert (s ∈ members_of p (sorted (keys outputs))) as Hmem.
  { apply list_elem_of_filter. split; [done | by apply elem_of_sorted]. }
  destruct (members_of p (sorted (keys outputs))) as [|v [|v' members]]
    eqn:Hmembers.
  - by apply elem_of_nil in Hmem.
  - apply list_elem_of_singleton in Hmem as <-.
    destruct Hfor as (info' & Hinfo' & ->).
    assert (info' = info) as -> by congruence.
    split; [done | by intros Hne].
  - destruct Hfor as (children & Hchildren & ->).
    split; [by intros [=] | intros _].
    exists children. split_and!; [done | | |].
    + apply list_elem_of_lookup in Hmem as [j Hj].
      destruct (Forall2_lookup_l _ _ _ _ _ Hchildren Hj)
        as (ce & Hce & info' & Hinfo' & ->).
      assert (info' = info) as -> by congruence.
      by apply list_elem_of_lookup_2 in Hce.
    + clear Hmem Hmembers He. revert Hchildren.
      generalize (v :: v' :: members). intros ms Hchildren.
      induction Hchildren as [|c ce cs ces (info' & _ & ->) _ IH]; [done |].
      rewrite fmap_cons. by rewrite IH.
    + apply Forall2_length in Hchildren. simpl in Hchildren. lia.
Qed.

End TableEntries.

(** ** Further instances on the scenario *)

Lemma shp_outputs_renames_witness :
  ∃ w, wire Scenario.names Scenario.convert_units Scenario.format_val
         "turboshaft" (prom_name_set ["thrust"; "rpm"; "shaft_power"])
         None (prom_name_set ["shaft_power"; "rpm"])
         (Scenario.inputs (Some (2000%Z, "rpm")) BRIEF) 3 = Py.Ok w
       ∧ PAlias "rpm" "AUTO_OVERRIDE:rpm" ∈ shp_outputs w.
Proof.
  pose proof (wire_fixed_rpm (val := Z) Scenario.names Scenario.convert_units
                Scenario.format_val "turboshaft"
                (prom_name_set ["thrust"; "rpm"; "shaft_power"])
                (prom_name_set ["shaft_power"; "rpm"])
                (Scenario.inputs (Some (2000%Z, "rpm")) BRIEF) 3
                (2000%Z, "rpm") eq_refl) as Hw.
  eexists. split; [exact Hw |].
  eapply shp_outputs_renames; [exact Hw |].
  split; [by vm_compute |]. do 3 right. split_and!; [done | done |].
  by eexists.
Defined.

Lemma gearbox_renames_witness :
  ∃ w gi go,
    wire Scenario.names Scenario.convert_units Scenario.format_val
      "turboshaft" (prom_name_set ["thrust"; "rpm"; "shaft_power"])
      (Some (prom_name_set ["shaft_power_in"; "rpm_in"],
             prom_name_set ["shaft_power_out"; "rpm_out"]))
      (prom_name_set ["shaft_power"; "rpm"])
      (Scenario.inputs (Some (2000%Z, "rpm")) BRIEF) 3 = Py.Ok w
    ∧ w_gearbox w = Some (gi, go)
    ∧ PAlias "shaft_power_out" "shaft_power" ∈ go.
Proof.
  pose proof (wire_gearbox_fixed_rpm (val := Z) Scenario.names
                Scenario.convert_units Scenario.format_val "turboshaft"
                (prom_name_set ["thrust"; "rpm"; "shaft_power"])
                (prom_name_set ["shaft_power_in"; "rpm_in"])
                (prom_name_set ["shaft_power_out"; "rpm_out"])
                (prom_name_set ["shaft_power"; "rpm"])
                (Scenario.inputs (Some (2000%Z, "rpm")) BRIEF) 3
                (2000%Z, "rpm") eq_refl) as Hw.
  simpl in Hw. do 3 eexists. split; [exact Hw |]. split; [reflexivity |].
  destruct (gearbox_renames _ _ _ _ _ _ _ _ _ _ _ _ _ Hw eq_refl)
    as (_ & _ & Hgo & _).
  apply Hgo. split_and!; [by vm_compute | by vm_compute | done].
Defined.

Lemma shp_to_gearbox_any_order_witness :
  let vars := ["shaft_power"; "thrust"; "rpm"] in
  let gis : gset string := prom_name_set ["shaft_power_in"; "rpm_in"] in
  promoted_name
    (foldl (shp_to_gearbox_var Scenario.names (list_to_set vars) gis)
       ([PName "*"], [PName "*"]) vars).1 "shaft_power"
  = promoted_name
      (shp_to_gearbox Scenario.names (list_to_set vars) gis
         [PName "*"] [PName "*"]).1 "shaft_power".
Proof.
  intros vars gis.
  destruct (shp_to_gearbox_any_order Scenario.names (list_to_set vars) gis
              [PName "*"] [PName "*"] vars) as (_ & _ & Hname).
  - intros v. by rewrite elem_of_list_to_set.
  - apply Hname.
Defined.

Lemma constructed_mission_needs_fixed_rpm_witness :
  Py.is_ok
    (Scenario.run
       (TurbopropModel_build_mission Scenario.model 2
          (Scenario.inputs None BRIEF) ∅))
  = false.
Proof.
  exact (proj1 (constructed_mission_needs_fixed_rpm (val := Z)
                  Scenario.names Scenario.convert_units Scenario.format_val
                  (λ _ _ _ _, Scenario.no_methods)
                  (λ _ _, Scenario.no_methods) Scenario.hamilton_standard
                  "turboprop_model" None None (Some Scenario.turboshaft)
                  (Some Scenario.propeller) (Some Scenario.gearbox) 2
                  (Scenario.inputs None BRIEF) ∅ eq_refl)).
Defined.


Lemma mission_completes_iff_witness :
  Py.is_ok
    (Scenario.run
       (Scenario.mission Scenario.turboshaft (Some Scenario.gearbox)
          (Some (2000%Z, "rpm")) BRIEF 2))
  = true.
Proof.
  destruct (mission_completes_iff (val := Z) Scenario.names
              Scenario.convert_units Scenario.format_val
              Scenario.hamilton_standard
              (Scenario.mission Scenario.turboshaft (Some Scenario.gearbox)
                 (Some (2000%Z, "rpm")) BRIEF 2)) as (_ & _ & _ & Hok).
  - apply (bool_decide_unpack _). by vm_compute.
  - apply Hok. split.
    + eexists. split; [reflexivity | by eexists].
    + intros b [= <-]. split; by eexists.
Defined.

Lemma propeller_group_inputs_witness :
  ∃ pg,
    propeller_group Scenario.names Scenario.hamilton_standard
      (Scenario.mission Scenario.turboshaft None None BRIEF 2) = Py.Ok pg
    ∧ "shaft_power_max" ∈ prom_name_set (list_inputs (GroupSys pg.2)).
Proof.
  eexists. split; [reflexivity |].
  eapply (propeller_group_inputs (val := Z) Scenario.names
            Scenario.hamilton_standard
            (Scenario.mission Scenario.turboshaft None None BRIEF 2)).
  - reflexivity.
  - apply (bool_decide_unpack _). by vm_compute.
  - split; [reflexivity |]. eexists. split; [reflexivity |].
    right. split; [reflexivity |]. by left.
Defined.

Lemma data_frame_header_witness :
  ∃ frame,
    Dashboard.convert_case_recorder_file_to_df Dashboard.example_norm
      Dashboard.example_cases = Dashboard.Ok (Some frame)
    ∧ Dashboard.columns frame = ["iter_count"; "mass"; "range"; "span"].
Proof.
  destruct (Dashboard.convert_case_recorder_file_to_df Dashboard.example_norm
              Dashboard.example_cases) as [[frame |] | e] eqn:Hconv;
    [| by vm_compute in Hconv | by vm_compute in Hconv].
  unfold Dashboard.example_cases in Hconv.
  pose proof (λ Ho Hc Hd,
                data_frame_header Dashboard.example_norm _ _ frame
                  Ho Hc Hd Hconv) as Hheader.
  destruct Hheader as [Hcols _];
    try (lazymatch goal with
         | |- NoDup _ => apply (bool_decide_unpack _); by vm_compute
         end).
  exists frame. split; [done |]. rewrite Hcols. by vm_compute.
Defined.

Lemma data_frame_rows_witness :
  ∃ frame r,
    Dashboard.convert_case_recorder_file_to_df Dashboard.example_norm
      Dashboard.example_cases = Dashboard.Ok (Some frame)
    ∧ Dashboard.rows frame !! 1 = Some (1, r)
    ∧ r !! 0 = Some (Dashboard.IterCount 1).
Proof.
  destruct (Dashboard.convert_case_recorder_file_to_df Dashboard.example_norm
              Dashboard.example_cases) as [[frame |] | e] eqn:Hconv;
    [| by vm_compute in Hconv | by vm_compute in Hconv].
  unfold Dashboard.example_cases in Hconv.
  pose proof (λ Hc Hd,
                data_frame_rows Dashboard.example_norm _ _ frame
                  Hc Hd Hconv) as Hrows.
  destruct Hrows as [_ Hrows];
    try (lazymatch goal with
         | |- NoDup _ => apply (bool_decide_unpack _); by vm_compute
         end).
  destruct (Hrows 1 _ eq_refl) as (r & Hr & _ & Hiter & _).
  by exists frame, r.
Defined.

Lemma data_frame_completes_witness :
  Dashboard.is_ok
    (Dashboard.convert_case_recorder_file_to_df Dashboard.example_norm
       Dashboard.example_cases)
  = true.
Proof.
  unfold Dashboard.example_cases.
  match goal with
  | |- Dashboard.is_ok
         (Dashboard.convert_case_recorder_file_to_df _ (?c :: ?cs)) = true =>
      pose proof (data_frame_completes Dashboard.example_norm c cs) as Hall
  end.
  destruct Hall as (_ & Hok & _);
    try (lazymatch goal with
         | |- NoDup _ => apply (bool_decide_unpack _); by vm_compute
         end).
  apply Hok. apply Forall_cons. split; [| constructor].
  unfold Dashboard.keys. simpl. split_and!; intros n; set_solver.
Defined.

Lemma variables_table_covers_witness :
  ∃ files table,
    Dashboard.Table.example_table = Dashboard.Ok (files, Some table)
    ∧ Dashboard.Table.Variable_
        {| Dashboard.Table.abs_name := "mission";
           Dashboard.Table.prom_name := "mission:range";
           Dashboard.Table.value := 3500%Z;
           Dashboard.Table.units := "nmi";
           Dashboard.Table.metadata := "null" |} ∈ table.
Proof.
  unfold Dashboard.Table.example_table.
  assert ("final" ∈ ["final"]) as Hfinal by (by left).
  destruct (create_table (M := unit) (λ x : Z, x) (λ _, None) (λ _, "null")
              ∅ "run" ["final"] Dashboard.Table.example_outputs Hfinal)
    as (grouped & table & _ & _ & Hcreate & _).
  eexists _, table. split; [exact Hcreate |].
  eapply (variables_table_covers (M := unit) (λ x : Z, x) (λ _, None)
            (λ _, "null") ∅ _ "run" ["final"]
            Dashboard.Table.example_outputs table "mission:range"
            {| Dashboard.Table.output_prom_name := "mission:range";
               Dashboard.Table.output_val := 3500%Z;
               Dashboard.Table.output_units := "nmi" |}).
  - apply (bool_decide_unpack _). by vm_compute.
  - exact Hcreate.
  - by left.
  - by vm_compute.
Defined.
